(** * Contact-form endpoint of the Lares backend: admission pipeline

    Shallow embedding of
    [directus/extensions/endpoints/contact-form/index.js]:
    the sanitizer [stripHTML], the fixed-window rate limiter
    [isRateLimited], the whitelist validator [validateFormData] and the
    POST handler that chains them. *)

From Stdlib Require Import ZArith NArith List Bool Lia.
From Stdlib Require Floats.SpecFloat.
From stdpp Require Import base option list gmap strings.

Local Open Scope Z_scope.
Local Set Warnings "-register-all".
Local Set Warnings "-clear-no-such-hyp".

(** ** JavaScript strings

    A JavaScript string is a sequence of UTF-16 code units.  Regular
    expressions without the [u] flag, [length], [trim] and [split] all
    work on code units, so a string is a list of code units. *)

Abbreviation jsstring := (list N).

(** Code units of an ASCII literal of the source. *)
Definition js (s : string) : jsstring :=
  map Ascii.N_of_ascii (String.list_ascii_of_string s).

(** ** JavaScript values

    The request body is what the JSON body parser produced; a missing
    property reads as [undefined]. *)

Module JS.

Inductive value :=
| Undefined
| Null
| Bool (b : bool)
| Num (x : SpecFloat.spec_float)
| Str (s : jsstring)
| Arr (xs : list value)
| Obj (props : gmap jsstring value).

(** [typeof v] *)
Definition typeof (v : value) : string :=
  match v with
  | Undefined => "undefined"
  | Null => "object"
  | Bool _ => "boolean"
  | Num _ => "number"
  | Str _ => "string"
  | Arr _ => "object"
  | Obj _ => "object"
  end.

(** ToBoolean: what [if (v)], [!v], [v && ...] and [v || ...] test. *)
Definition ToBoolean (v : value) : bool :=
  match v with
  | Undefined => false
  | Null => false
  | Bool b => b
  | Num (SpecFloat.S754_zero _) => false
  | Num SpecFloat.S754_nan => false
  | Num _ => true
  | Str [] => false
  | Str (_ :: _) => true
  | Arr _ => true
  | Obj _ => true
  end.

(** What a JavaScript [throw] or a rejected promise carries: the
    [TypeError] of the runtime, an [Error] object of a collaborator
    with its [message], or any other value, [undefined] and [null]
    among them. *)
Inductive exn :=
| TypeError
| Error (message : jsstring)
| Thrown (v : value).

Inductive result (A : Type) :=
| Ok (a : A)
| Throw (e : exn).
Arguments Ok {A} a.
Arguments Throw {A} e.

Definition bind {A B} (m : result A) (k : A → result B) : result B :=
  match m with
  | Ok a => k a
  | Throw e => Throw e
  end.

(** [v.k] for the property names the endpoint reads ([name], [email],
    [phone], [subject], [message], [honeypot]).  Reading from
    [undefined] or [null] throws; none of these names is defined on
    the prototypes of strings, numbers, booleans or arrays, so there
    the read gives [undefined]. *)
Definition get (v : value) (k : jsstring) : result value :=
  match v with
  | Undefined => Throw TypeError
  | Null => Throw TypeError
  | Obj props => Ok (default Undefined (props !! k))
  | _ => Ok Undefined
  end.

(** WhiteSpace and LineTerminator code units: what [trim] removes and
    what [\s] matches. *)
Definition is_space (c : N) : bool :=
  ((9 <=? c) && (c <=? 13) || (c =? 32) || (c =? 160) || (c =? 5760)
   || (8192 <=? c) && (c <=? 8202) || (c =? 8232) || (c =? 8233)
   || (c =? 8239) || (c =? 8287) || (c =? 12288) || (c =? 65279))%N.

Fixpoint trimStart (s : jsstring) : jsstring :=
  match s with
  | [] => []
  | c :: s' => if is_space c then trimStart s' else s
  end.

Definition trimEnd (s : jsstring) : jsstring :=
  rev (trimStart (rev s)).

Definition trim (s : jsstring) : jsstring := trimEnd (trimStart s).

(** The method call [v.trim()]: only a string has the method. *)
Definition call_trim (v : value) : result jsstring :=
  match v with
  | Str s => Ok (trim s)
  | _ => Throw TypeError
  end.

(** [s.split(sep)] for a one-character separator. *)
Fixpoint split (sep : N) (s : jsstring) : list jsstring :=
  match s with
  | [] => [[]]
  | c :: s' =>
      if (c =? sep)%N then [] :: split sep s'
      else match split sep s' with
           | p :: ps => (c :: p) :: ps
           | [] => [[c]]
           end
  end.

(** [s.toLowerCase()] on code units below 128; the endpoint applies it
    to a validated email address, which has no other code unit. *)
Definition toLowerCase (s : jsstring) : jsstring :=
  map (λ c, if (65 <=? c) && (c <=? 90) then c + 32 else c)%N s.

(** [xs.includes(v)] on an array of strings: SameValueZero, so only a
    string can be found. *)
Definition includes (xs : list jsstring) (v : value) : bool :=
  match v with
  | Str s => bool_decide (s ∈ xs)
  | _ => false
  end.

End JS.

Import JS.

Notation "'let!' x := m 'in' k" := (bind m (λ x, k))
  (at level 10, x name, m at level 100, k at level 200,
   format "'[v' 'let!'  x  :=  m  'in'  '/' k ']'").

(** Short-circuit [a || b] on conditions that may throw: [b] is
    evaluated only when [a] is false. *)
Definition orM (a b : result bool) : result bool :=
  let! x := a in if x then Ok true else b.

(** Short-circuit [a && b]. *)
Definition andM (a b : result bool) : result bool :=
  let! x := a in if x then b else Ok false.

(** ** Regular expressions

    The fragment the endpoint uses: sequences of character classes with
    a repetition count.  [Void], [Eps] and [Alt] are there for the
    derivatives. *)

Module Regex.

Inductive regex :=
| Void
| Eps
| Rep (cls : N → bool) (lo : nat) (hi : option nat)
| Cat (r1 r2 : regex)
| Alt (r1 r2 : regex).

(** One character of a class, and the usual quantifiers. *)
Definition Cls (cls : N → bool) : regex := Rep cls 1 (Some 1%nat).
Definition Chr (c : N) : regex := Cls (N.eqb c).
Definition Plus (cls : N → bool) : regex := Rep cls 1 None.
Definition Star (cls : N → bool) : regex := Rep cls 0 None.

Fixpoint nullable (r : regex) : bool :=
  match r with
  | Void => false
  | Eps => true
  | Rep _ lo _ => Nat.eqb lo 0
  | Cat r1 r2 => nullable r1 && nullable r2
  | Alt r1 r2 => nullable r1 || nullable r2
  end.

Definition room (hi : option nat) : bool :=
  match hi with
  | Some O => false
  | _ => true
  end.

Fixpoint deriv (c : N) (r : regex) : regex :=
  match r with
  | Void => Void
  | Eps => Void
  | Rep cls lo hi =>
      if cls c && room hi then Rep cls (Nat.pred lo) (Nat.pred <$> hi)
      else Void
  | Cat r1 r2 =>
      if nullable r1 then Alt (Cat (deriv c r1) r2) (deriv c r2)
      else Cat (deriv c r1) r2
  | Alt r1 r2 => Alt (deriv c r1) (deriv c r2)
  end.

(** [/^r$/.test(s)]: without the [m] flag the anchors are the two ends
    of the input, so the whole of [s] has to match. *)
Fixpoint test (r : regex) (s : jsstring) : bool :=
  match s with
  | [] => nullable r
  | c :: s' => test (deriv c r) s'
  end.

(** The words of a regular expression. *)
Fixpoint lang (r : regex) (s : jsstring) : Prop :=
  match r with
  | Void => False
  | Eps => s = []
  | Rep cls lo hi =>
      (lo ≤ length s)%nat
      ∧ match hi with Some h => (length s ≤ h)%nat | None => True end
      ∧ Forall (λ c, cls c = true) s
  | Cat r1 r2 => ∃ s1 s2, s = s1 ++ s2 ∧ lang r1 s1 ∧ lang r2 s2
  | Alt r1 r2 => lang r1 s ∨ lang r2 s
  end.

(** Character classes of the source. *)
Definition range (lo hi c : N) : bool := ((lo <=? c) && (c <=? hi))%N.
Definition lower : N → bool := range 97 122.
Definition upper : N → bool := range 65 90.
Definition digit : N → bool := range 48 57.
Definition alpha (c : N) : bool := lower c || upper c.

End Regex.

Import Regex.

(** [ALLOWED_PATTERNS] *)
Module ALLOWED_PATTERNS.

(** [[a-zA-ZÀ-ÿ\s'\-]]: À is U+00C0 and ÿ is U+00FF. *)
Definition name_cls (c : N) : bool :=
  alpha c || range 192 255 c || is_space c || (c =? 39)%N || (c =? 45)%N.

(** [[a-zA-Z0-9._%+\-]] *)
Definition local_cls (c : N) : bool :=
  alpha c || digit c || (c =? 46)%N || (c =? 95)%N || (c =? 37)%N
  || (c =? 43)%N || (c =? 45)%N.

(** [[a-zA-Z0-9.\-]] *)
Definition domain_cls (c : N) : bool :=
  alpha c || digit c || (c =? 46)%N || (c =? 45)%N.

(** [[\d\s+\-()]] *)
Definition phone_cls (c : N) : bool :=
  digit c || is_space c || (c =? 43)%N || (c =? 45)%N || (c =? 40)%N
  || (c =? 41)%N.

(** [[\s\S]] *)
Definition any_cls (c : N) : bool := is_space c || negb (is_space c).

(** [/^[a-zA-ZÀ-ÿ\s'\-]{2,100}$/] *)
Definition name : regex := Rep name_cls 2 (Some 100%nat).

(** [/^[a-zA-Z0-9._%+\-]+@[a-zA-Z0-9.\-]+\.[a-zA-Z]{2,254}$/] *)
Definition email : regex :=
  Cat (Plus local_cls)
    (Cat (Chr 64)
       (Cat (Plus domain_cls)
          (Cat (Chr 46) (Rep alpha 2 (Some 254%nat))))).

(** [/^[\d\s+\-()]{0,20}$/] *)
Definition phone : regex := Rep phone_cls 0 (Some 20%nat).

(** [/^[\s\S]{10,2000}$/] *)
Definition message : regex := Rep any_cls 10 (Some 2000%nat).

End ALLOWED_PATTERNS.

Definition ALLOWED_SUBJECTS : list jsstring :=
  [js "info"; js "visit"; js "partnership"; js "other"].

(** ** Sanitizer *)

Module Sanitizer.

Definition LT : N := 60.
Definition GT : N := 62.

(** [s.replace(/<[^>]*>/g, '')].  The scan goes left to right.  At a
    [<] the pattern matches exactly when a [>] follows somewhere
    ([[^>]] also takes [<] and line ends), and the match ends at the
    first one: [close_tag] looks for it and, when found, resumes the
    scan behind it.  Where the pattern does not match, the character
    is kept and the scan moves on by one. *)
Fixpoint strip_tags (s : jsstring) : jsstring :=
  match s with
  | [] => []
  | c :: s' =>
      if (c =? LT)%N then
        match close_tag s' with
        | Some out => out
        | None => c :: strip_tags s'
        end
      else c :: strip_tags s'
  end
with close_tag (s : jsstring) : option jsstring :=
  match s with
  | [] => None
  | c :: s' => if (c =? GT)%N then Some (strip_tags s') else close_tag s'
  end.

(** [stripHTML(str)] *)
Definition stripHTML (str : value) : jsstring :=
  if negb (String.eqb (typeof str) "string") then []
  else match str with
       | Str s => strip_tags s
       | _ => []
       end.

(** The pattern [<[^>]*>] of the sanitizer. *)
Definition tag_pattern : regex :=
  Cat (Chr LT) (Cat (Star (λ c, negb (c =? GT)%N)) (Chr GT)).

(** [Removed s out]: [out] is [s] with some pieces taken out, each a
    match of the pattern, and every other character kept in place. *)
Inductive Removed : jsstring → jsstring → Prop :=
| Removed_nil : Removed [] []
| Removed_keep c s out : Removed s out → Removed (c :: s) (c :: out)
| Removed_tag t s out :
    test tag_pattern t = true → Removed s out → Removed (t ++ s) out.

(** No [<] of [s] has a [>] somewhere behind it. *)
Definition tag_free (s : jsstring) : Prop :=
  ∀ pre post, s = pre ++ LT :: post → GT ∉ post.

End Sanitizer.

Import Sanitizer.

(** ** Rate limiter *)

Module RateLimiter.

(** Value stored per IP by [rateLimitStore.set]. *)
Record Entry := { count : Z; firstRequest : Z }.

Definition RATE_LIMIT_MAX : Z := 3.
Definition RATE_LIMIT_WINDOW_MS : Z := 15 * 60 * 1000.

(** The module-level [Map]; it starts empty when the module loads. *)
Abbreviation Store := (gmap jsstring Entry).

Definition rateLimitStore0 : Store := ∅.

(** [isRateLimited(ip)], with the value [now] that [Date.now()]
    returns made an argument and the module-level store threaded
    through.  Times are whole milliseconds and counters are whole
    numbers, on which the arithmetic of JavaScript numbers is exact.
    The entry object is reachable from the store only, so
    [entry.count += 1] is an update of the stored entry. *)
Definition isRateLimited (ip : jsstring) (now : Z) (rateLimitStore : Store)
  : bool * Store :=
  match rateLimitStore !! ip with
  | None =>
      (false, <[ip := {| count := 1; firstRequest := now |}]> rateLimitStore)
  | Some entry =>
      if now - firstRequest entry >? RATE_LIMIT_WINDOW_MS then
        (false,
         <[ip := {| count := 1; firstRequest := now |}]> rateLimitStore)
      else if count entry >=? RATE_LIMIT_MAX then
        (true, rateLimitStore)
      else
        (false,
         <[ip := {| count := count entry + 1;
                    firstRequest := firstRequest entry |}]> rateLimitStore)
  end.

(** A sequence of calls [(ip, now)], oldest first: the answers in
    order and the store left behind. *)
Fixpoint calls (cs : list (jsstring * Z)) (st : Store) : list bool * Store :=
  match cs with
  | [] => ([], st)
  | (ip, now) :: cs' =>
      let '(r, st') := isRateLimited ip now st in
      let '(rs, st'') := calls cs' st' in
      (r :: rs, st'')
  end.

(** Every stored counter is between 1 and the maximum. *)
Definition store_ok (st : Store) : Prop :=
  ∀ ip e, st !! ip = Some e → 1 ≤ count e ≤ RATE_LIMIT_MAX.

End RateLimiter.

Import RateLimiter.

(** ** Validator *)

Module Validator.

(** The object [validateFormData] returns; [errors] maps a field name
    to its reason. *)
Record ValidationResult := { valid : bool; errors : gmap string string }.

(** [Object.keys(o)] *)
Definition Object_keys (o : gmap string string) : list string :=
  (map_to_list o).*1.

(** The five conditions of [validateFormData], each an expression of
    the source with its short-circuit evaluation: a property is read
    again by each operand that mentions it. *)
Definition name_fails (data : value) : result bool :=
  orM (let! v := get data (js "name") in Ok (negb (ToBoolean v)))
    (orM (let! v := get data (js "name") in
          Ok (negb (String.eqb (typeof v) "string")))
       (let! v := get data (js "name") in
        let! t := call_trim v in
        Ok (negb (test ALLOWED_PATTERNS.name t)))).

Definition email_fails (data : value) : result bool :=
  orM (let! v := get data (js "email") in Ok (negb (ToBoolean v)))
    (orM (let! v := get data (js "email") in
          Ok (negb (String.eqb (typeof v) "string")))
       (let! v := get data (js "email") in
        let! t := call_trim v in
        Ok (negb (test ALLOWED_PATTERNS.email t)))).

Definition phone_fails (data : value) : result bool :=
  andM (let! v := get data (js "phone") in Ok (ToBoolean v))
    (andM (let! v := get data (js "phone") in
           Ok (String.eqb (typeof v) "string"))
       (andM (let! v := get data (js "phone") in
              let! t := call_trim v in
              Ok (ToBoolean (Str t)))
          (let! v := get data (js "phone") in
           let! t := call_trim v in
           Ok (negb (test ALLOWED_PATTERNS.phone t))))).

Definition subject_fails (data : value) : result bool :=
  orM (let! v := get data (js "subject") in Ok (negb (ToBoolean v)))
    (let! v := get data (js "subject") in
     Ok (negb (includes ALLOWED_SUBJECTS v))).

Definition message_fails (data : value) : result bool :=
  orM (let! v := get data (js "message") in Ok (negb (ToBoolean v)))
    (orM (let! v := get data (js "message") in
          Ok (negb (String.eqb (typeof v) "string")))
       (let! v := get data (js "message") in
        let! t := call_trim v in
        Ok (negb (test ALLOWED_PATTERNS.message t)))).

(** [if (cond) { errors.key = reason; }] *)
Definition report (cond : result bool) (key reason : string)
    (errors : gmap string string) : result (gmap string string) :=
  let! c := cond in
  Ok (if c then <[key := reason]> errors else errors).

(** [validateFormData(data)] *)
Definition validateFormData (data : value) : result ValidationResult :=
  let errors : gmap string string := ∅ in
  let! errors := report (name_fails data) "name" "Invalid name" errors in
  let! errors := report (email_fails data) "email" "Invalid email" errors in
  let! errors := report (phone_fails data) "phone" "Invalid phone" errors in
  let! errors :=
    report (subject_fails data) "subject" "Invalid subject" errors in
  let! errors :=
    report (message_fails data) "message" "Invalid message" errors in
  Ok {| valid := Nat.eqb (length (Object_keys errors)) 0;
        errors := errors |}.

End Validator.

Import Validator.

(** ** Field contracts

    [SpecContract] is the whitelist table of the specification, read on
    the submitted values as they are.  [Contract] is the same table
    read on what the validator tests: the trimmed value of a string. *)

Definition between (lo hi n : nat) : bool := Nat.leb lo n && Nat.leb n hi.

Definition is_blank (s : jsstring) : bool :=
  match trim s with [] => true | _ => false end.

Module SpecContract.

Definition name_ok (v : value) : bool :=
  match v with
  | Str s => between 2 100 (length s) && forallb ALLOWED_PATTERNS.name_cls s
  | _ => false
  end.

Definition email_ok (v : value) : bool :=
  match v with
  | Str s => test ALLOWED_PATTERNS.email s
  | _ => false
  end.

(** absent, or blank, or matching the pattern *)
Definition phone_ok (v : value) : bool :=
  match v with
  | Undefined => true
  | Str s => is_blank s || test ALLOWED_PATTERNS.phone s
  | _ => false
  end.

Definition subject_ok (v : value) : bool :=
  match v with
  | Str s => bool_decide (s ∈ ALLOWED_SUBJECTS)
  | _ => false
  end.

Definition message_ok (v : value) : bool :=
  match v with
  | Str s => between 10 2000 (length s)
  | _ => false
  end.

Definition all_ok (name email phone subject message : value) : bool :=
  name_ok name && email_ok email && phone_ok phone && subject_ok subject
  && message_ok message.

End SpecContract.

Module Contract.

Definition name_ok (v : value) : bool :=
  match v with
  | Str s =>
      between 2 100 (length (trim s))
      && forallb ALLOWED_PATTERNS.name_cls (trim s)
  | _ => false
  end.

Definition email_ok (v : value) : bool :=
  match v with
  | Str s => test ALLOWED_PATTERNS.email (trim s)
  | _ => false
  end.

(** a falsy value (absent, [null], the empty string, ...), or a string
    that is blank or whose trimmed value matches the pattern *)
Definition phone_ok (v : value) : bool :=
  match v with
  | Str s => is_blank s || test ALLOWED_PATTERNS.phone (trim s)
  | _ => negb (ToBoolean v)
  end.

Definition subject_ok (v : value) : bool :=
  match v with
  | Str s => bool_decide (s ∈ ALLOWED_SUBJECTS)
  | _ => false
  end.

Definition message_ok (v : value) : bool :=
  match v with
  | Str s => between 10 2000 (length (trim s))
  | _ => false
  end.

(** The phone is left out or is a string. *)
Definition phone_typed (v : value) : Prop :=
  ToBoolean v = false ∨ ∃ s, v = Str s.

End Contract.

(** [data.k] of an object, as a value. *)
Definition field (props : gmap jsstring value) (k : string) : value :=
  default Undefined (props !! js k).

(** The object literal [{ k1: v1, ... }], for distinct keys. *)
Definition object (kvs : list (string * value)) : value :=
  Obj (list_to_map (map (λ kv, (js kv.1, kv.2)) kvs)).

(** ** The POST handler *)

Module Endpoint.

(** What the handler reads from [req]: the [x-forwarded-for] header
    (a string, or [undefined] when the header is absent), [req.ip]
    (a string or [undefined]) and the parsed body. *)
Record Request := {
  x_forwarded_for : option jsstring;
  ip : option jsstring;
  body : value;
}.

(** [res.status(s).json({ message, errors })] *)
Record Response := {
  status : Z;
  message : string;
  response_errors : option (gmap string string);
}.

Record SanitizedData := {
  sd_name : jsstring;
  sd_email : jsstring;
  sd_phone : jsstring;
  sd_subject : value;
  sd_message : jsstring;
  ip_address : jsstring;
  sd_status : string;
}.

(** The [data] of the mail template. *)
Record TemplateData := {
  td_name : jsstring;
  td_email : jsstring;
  td_phone : jsstring;
  td_subject : value;
  td_message : jsstring;
}.

(** Argument of [mailService.send]: [subject_value] is what the
    template literal [`[Lares] New contact: ${...}`] interpolates. *)
Record Mail := {
  to : option jsstring;
  subject_prefix : string;
  subject_value : value;
  template_name : string;
  template_data : TemplateData;
}.

(** The schema snapshot [getSchema()] resolves to. *)
Inductive Schema := schema (id : nat).

(** The Directus extension context: each collaborator either returns
    or throws. *)
Record ItemsService := { createOne : SanitizedData → result unit }.
Record MailService := { send : Mail → result unit }.
Record Context := {
  getSchema : result Schema;
  new_ItemsService : string → Schema → result ItemsService;
  new_MailService : Schema → result MailService;
  ADMIN_EMAIL : option jsstring;
}.

(** What the handler does to the outside, in order. *)
Inductive Event :=
| CreateOne (d : SanitizedData)
| Send (m : Mail)
| ConsoleError (prefix : string) (err : exn).

(** The state a request runs in: the module-level store and the
    effects so far. *)
Record World := { rateLimitStore : Store; trace : list Event }.

(** Computations of the handler: they change the world and return or
    throw; what was done before a throw stays done. *)
Definition M (A : Type) : Type := World → result A * World.

Definition ret {A} (a : A) : M A := λ w, (Ok a, w).

Definition bindM {A B} (m : M A) (k : A → M B) : M B :=
  λ w, match m w with
       | (Ok a, w') => k a w'
       | (Throw e, w') => (Throw e, w')
       end.

Definition lift {A} (r : result A) : M A := λ w, (r, w).

(** [try { m } catch (err) { h err }] *)
Definition try_catch {A} (m : M A) (h : exn → M A) : M A :=
  λ w, match m w with
       | (Ok a, w') => (Ok a, w')
       | (Throw e, w') => h e w'
       end.

Definition emit (ev : Event) : M unit :=
  λ w, (Ok tt, {| rateLimitStore := rateLimitStore w;
                  trace := trace w ++ [ev] |}).

Definition rate_limit (clientIp : jsstring) (now : Z) : M bool :=
  λ w, let '(r, st) := isRateLimited clientIp now (rateLimitStore w) in
       (Ok r, {| rateLimitStore := st; trace := trace w |}).

(** [a || b] on strings that may be [undefined]. *)
Definition or_str (a b : option jsstring) : option jsstring :=
  match a with
  | Some (_ :: _) => a
  | _ => b
  end.

(** [req.headers['x-forwarded-for']?.split(',')[0] || req.ip || 'unknown'] *)
Definition clientIp (req : Request) : jsstring :=
  let first :=
    match x_forwarded_for req with
    | None => None
    | Some h => split 44 h !! 0%nat
    end in
  default (js "unknown")
    (or_str (or_str first (ip req)) (Some (js "unknown"))).

(** [req.body || {}] *)
Definition body_or_empty (req : Request) : value :=
  if ToBoolean (body req) then body req else Obj ∅.

(** The object literal [sanitizedData]; its property values are
    evaluated in order. *)
Definition sanitize (body : value) (clientIp : jsstring)
  : result SanitizedData :=
  let! n := (let! v := get body (js "name") in call_trim v) in
  let! e := (let! v := get body (js "email") in call_trim v) in
  let! p :=
    (let! v := get body (js "phone") in
     if ToBoolean v then
       let! v' := get body (js "phone") in
       let! t := call_trim v' in
       Ok (stripHTML (Str t))
     else Ok []) in
  let! s := get body (js "subject") in
  let! m := (let! v := get body (js "message") in call_trim v) in
  Ok {| sd_name := stripHTML (Str n);
        sd_email := toLowerCase e;
        sd_phone := p;
        sd_subject := s;
        sd_message := stripHTML (Str m);
        ip_address := clientIp;
        sd_status := "new" |}.

Definition notification (ctx : Context) (d : SanitizedData) : Mail :=
  {| to := ADMIN_EMAIL ctx;
     subject_prefix := "[Lares] New contact: ";
     subject_value := sd_subject d;
     template_name := "contact-notification";
     template_data :=
       {| td_name := sd_name d;
          td_email := sd_email d;
          td_phone := sd_phone d;
          td_subject := sd_subject d;
          td_message := sd_message d |} |}.

Definition respond (s : Z) (msg : string) : Response :=
  {| status := s; message := msg; response_errors := None |}.

(** [err.message], the argument both [catch] blocks evaluate before
    they call [console.error]: the read throws a [TypeError] when the
    caught value is [undefined] or [null]. *)
Definition read_message (err : exn) : result unit :=
  match err with
  | Thrown v => let! _ := get v (js "message") in Ok tt
  | _ => Ok tt
  end.

(** [console.error(prefix, err.message)] *)
Definition console_error (prefix : string) (err : exn) : M unit :=
  bindM (lift (read_message err)) (λ _, emit (ConsoleError prefix err)).

(** The handler of [router.post('/', ...)]; [now] is what
    [Date.now()] returns during the request.  When the outer [catch]
    throws, the handler throws and no response is sent. *)
Definition handler (ctx : Context) (now : Z) (req : Request) : M Response :=
  try_catch
    (let clientIp := clientIp req in
     bindM (rate_limit clientIp now) (λ limited,
     if limited then
       ret (respond 429 "Too many requests. Try again later.")
     else
       let body := body_or_empty req in
       bindM (lift (get body (js "honeypot"))) (λ honeypot,
       if ToBoolean honeypot then
         ret (respond 200 "Thank you for your message.")
       else
         bindM (lift (validateFormData body)) (λ validation,
         if negb (valid validation) then
           ret {| status := 400;
                  message := "Validation failed";
                  response_errors := Some (errors validation) |}
         else
           bindM (lift (sanitize body clientIp)) (λ sanitizedData,
           bindM (lift (getSchema ctx)) (λ schema,
           bindM (lift (new_ItemsService ctx "contact_submissions" schema))
             (λ itemsService,
           bindM (emit (CreateOne sanitizedData)) (λ _,
           bindM (lift (createOne itemsService sanitizedData)) (λ _,
           bindM
             (try_catch
                (bindM (lift (new_MailService ctx schema)) (λ mailService,
                 let mail := notification ctx sanitizedData in
                 bindM (emit (Send mail)) (λ _,
                 lift (send mailService mail))))
                (λ mailErr,
                 console_error "Email notification failed:" mailErr))
             (λ _,
           ret (respond 200 "Message received successfully.")))))))))))
    (λ err,
     bindM (console_error "Contact form error:" err) (λ _,
     ret (respond 500 "Internal server error."))).

(** The value the handler finds in [body.k]; [body] is never
    [undefined] or [null], so the read does not throw. *)
Definition body_prop (req : Request) (k : string) : value :=
  match get (body_or_empty req) (js k) with
  | Ok v => v
  | Throw _ => Undefined
  end.

(** The notification of [d] fails with [e]: the mail service cannot
    be built, or its [send] throws. *)
Definition mail_fails (ctx : Context) (sch : Schema) (d : SanitizedData)
    (e : exn) : Prop :=
  new_MailService ctx sch = Throw e
  ∨ ∃ m, new_MailService ctx sch = Ok m
         ∧ send m (notification ctx d) = Throw e.

(** The context of the examples: every collaborator works. *)
Definition working : Context :=
  {| getSchema := Ok (schema 0);
     new_ItemsService := λ _ _, Ok {| createOne := λ _, Ok tt |};
     new_MailService := λ _, Ok {| send := λ _, Ok tt |};
     ADMIN_EMAIL := Some (js "admin@example.org") |}.

(** A mail service whose [send] rejects with [undefined], and an
    items service whose [createOne] does. *)
Definition mail_rejects_undefined : Context :=
  {| getSchema := Ok (schema 0);
     new_ItemsService := λ _ _, Ok {| createOne := λ _, Ok tt |};
     new_MailService :=
       λ _, Ok {| send := λ _, Throw (Thrown Undefined) |};
     ADMIN_EMAIL := Some (js "admin@example.org") |}.

Definition storage_rejects_undefined : Context :=
  {| getSchema := Ok (schema 0);
     new_ItemsService :=
       λ _ _, Ok {| createOne := λ _, Throw (Thrown Undefined) |};
     new_MailService := λ _, Ok {| send := λ _, Ok tt |};
     ADMIN_EMAIL := Some (js "admin@example.org") |}.

(** The same, with a mail service whose [send] fails. *)
Definition mail_down : Context :=
  {| getSchema := Ok (schema 0);
     new_ItemsService := λ _ _, Ok {| createOne := λ _, Ok tt |};
     new_MailService :=
       λ _, Ok {| send := λ _, Throw (Error (js "SMTP timeout")) |};
     ADMIN_EMAIL := Some (js "admin@example.org") |}.

Definition world0 : World :=
  {| rateLimitStore := rateLimitStore0; trace := [] |}.

(** The submission of the examples, and a request that carries a
    body through one proxy. *)
Definition submission : list (string * value) :=
  [("name", Str (js "Marco Rossi"));
   ("email", Str (js "marco@example.com"));
   ("phone", Str (js "+39 06 1234567"));
   ("subject", Str (js "info"));
   ("message", Str (js "I want information about cohousing."))].

Definition request_with (b : value) : Request :=
  {| x_forwarded_for := Some (js "203.0.113.7, 10.0.0.2");
     ip := Some (js "10.0.0.2");
     body := b |}.

(** A world in which the client of the examples has used up its
    window at time 0. *)
Definition exhausted : World :=
  {| rateLimitStore :=
       {[ js "203.0.113.7" := {| count := 3; firstRequest := 0 |} ]};
     trace := [] |}.

End Endpoint.

Import Endpoint.

(** ** Outcomes of a request *)

Module Outcome.

(** The world after a request: the store the limiter left and the
    events added to the trace. *)
Definition extend (w : World) (st : Store) (evs : list Event) : World :=
  {| rateLimitStore := st; trace := trace w ++ evs |}.

(** What the inner [try] of the handler adds to the trace. *)
Definition mail_events (ctx : Context) (sch : Schema) (d : SanitizedData)
  : list Event :=
  match new_MailService ctx sch with
  | Throw e => [ConsoleError "Email notification failed:" e]
  | Ok m =>
      Send (notification ctx d)
      :: match send m (notification ctx d) with
         | Ok _ => []
         | Throw e => [ConsoleError "Email notification failed:" e]
         end
  end.

(** What the outer [catch] makes of [err], thrown after the events
    [pre]: a logged 500, or nothing more when [err.message] throws. *)
Definition caught (w : World) (st : Store) (pre : list Event) (err : exn)
  : result Response * World :=
  match read_message err with
  | Ok _ =>
      (Ok (respond 500 "Internal server error."),
       extend w st (pre ++ [ConsoleError "Contact form error:" err]))
  | Throw e => (Throw e, extend w st pre)
  end.

(** What the inner [catch] makes of [mailErr], thrown after the
    events [pre]: a log line and the answer of success, or, when
    [mailErr.message] throws, the outer [catch]. *)
Definition mail_caught (w : World) (st : Store) (pre : list Event)
    (mailErr : exn) : result Response * World :=
  match read_message mailErr with
  | Ok _ =>
      (Ok (respond 200 "Message received successfully."),
       extend w st
         (pre ++ [ConsoleError "Email notification failed:" mailErr]))
  | Throw e => caught w st pre e
  end.

(** The mails handed to [send] among some events. *)
Definition sent (evs : list Event) : list Mail :=
  omap (λ ev, match ev with Send m => Some m | _ => None end) evs.

(** The five properties the validator reads. *)
Definition validated_keys : list string :=
  ["name"; "email"; "phone"; "subject"; "message"].

(** No upper-case letter A-Z. *)
Definition no_upper (s : jsstring) : Prop :=
  Forall (λ c, upper c = false) s.

(** What reaches storage: every text field within its whitelist, no
    tag left, the subject one of the allowed strings. *)
Record clean (d : SanitizedData) : Prop := {
  clean_name : test ALLOWED_PATTERNS.name (sd_name d) = true;
  clean_email : test ALLOWED_PATTERNS.email (sd_email d) = true;
  clean_email_lower : no_upper (sd_email d);
  clean_phone : test ALLOWED_PATTERNS.phone (sd_phone d) = true;
  clean_subject : ∃ s, sd_subject d = Str s ∧ s ∈ ALLOWED_SUBJECTS;
  clean_message : tag_free (sd_message d);
  clean_message_length : (length (sd_message d) ≤ 2000)%nat;
  clean_status : sd_status d = "new";
}.

(** The data handed to [createOne] among some events. *)
Definition stored (evs : list Event) : list SanitizedData :=
  omap (λ ev, match ev with CreateOne d => Some d | _ => None end) evs.

(** The phone of a body is a truthy value that is not a string. *)
Definition phone_mistyped (v : value) : Prop :=
  ToBoolean v = true ∧ ∀ s, v ≠ Str s.

End Outcome.

Import Outcome.

(** ** The history of the limiter *)

Module History.

(** The calls of a run with the answer each one got. *)
Definition history (cs : list (jsstring * Z)) (st : Store)
  : list (jsstring * Z * bool) :=
  zip cs (calls cs st).1.

(** The admitted calls of [ip] in a history, at time [t] or later. *)
Definition admitted_since (ip : jsstring) (t : Z)
    (h : list (jsstring * Z * bool)) : nat :=
  length (filter (λ c, c.1.1 = ip ∧ c.2 = false ∧ t ≤ c.1.2) h).

(** The times of the calls do not go back, starting at [lo]. *)
Fixpoint chronological_from (lo : Z) (cs : list (jsstring * Z)) : bool :=
  match cs with
  | [] => true
  | (_, t) :: cs' => (lo <=? t) && chronological_from t cs'
  end.

Definition chronological (cs : list (jsstring * Z)) : bool :=
  match cs with
  | [] => true
  | (_, t) :: cs' => chronological_from t cs'
  end.

(** The calls of one identity among some calls. *)
Definition calls_of (ip : jsstring) (cs : list (jsstring * Z))
  : list (jsstring * Z) :=
  filter (λ c, c.1 = ip) cs.

(** The store keeps track of the history: the counter of an identity
    is the number of its admitted calls since its window began, none
    of its admitted calls is later than the end of that window, and
    the window began with one of the calls.  An identity without an
    entry has not called. *)
Definition tracks (h : list (jsstring * Z * bool)) (st : Store) : Prop :=
  ∀ ip,
    match st !! ip with
    | None => ∀ c, c ∈ h → c.1.1 ≠ ip
    | Some e =>
        count e = Z.of_nat (admitted_since ip (firstRequest e) h)
        ∧ (∀ c, c ∈ h → c.1.1 = ip → c.2 = false →
             c.1.2 ≤ firstRequest e + RATE_LIMIT_WINDOW_MS)
        ∧ (∃ c, c ∈ h ∧ c.1.2 = firstRequest e)
    end.

End History.

Import History.

(** ** Inputs of the test suite

    The submissions of [tests/contact-validation.test.js] differ from a
    valid one in one field. *)

Definition validity (kvs : list (string * value)) : option bool :=
  match validateFormData (object kvs) with
  | Ok r => Some (valid r)
  | Throw _ => None
  end.

Definition with_name (n : jsstring) : list (string * value) :=
  [("name", Str n); ("email", Str (js "test@example.com"));
   ("subject", Str (js "info"));
   ("message", Str (js "Test message content here."))].

Definition with_email (e : jsstring) : list (string * value) :=
  [("name", Str (js "Test User")); ("email", Str e);
   ("subject", Str (js "info"));
   ("message", Str (js "Test message content here."))].

Definition with_subject (x : jsstring) : list (string * value) :=
  [("name", Str (js "Test User")); ("email", Str (js "test@example.com"));
   ("subject", Str x);
   ("message", Str (js "Test message content here."))].

Definition with_message (m : jsstring) : list (string * value) :=
  [("name", Str (js "Test User")); ("email", Str (js "test@example.com"));
   ("subject", Str (js "info")); ("message", Str m)].

(** Evaluate one call of the limiter on a store whose entry for the
    caller is known, deciding the two comparisons by arithmetic. *)
Ltac limiter_step :=
  unfold isRateLimited;
  rewrite ?lookup_insert_eq; simpl;
  repeat match goal with
    | |- context [?a >? ?b] => destruct (Z.gtb_spec a b); try lia
    | |- context [?a >=? ?b] => destruct (Z.geb_spec a b); try lia
    end.

(** * The matcher decides the language *)

Section RegexFacts.

Implicit Types (r : regex) (s : jsstring) (c : N).

Lemma nullable_lang r : nullable r = true ↔ lang r [].
Proof.
  induction r as [| |cls lo hi|r1 IH1 r2 IH2|r1 IH1 r2 IH2]; simpl.
  - split; [discriminate | tauto].
  - tauto.
  - rewrite Nat.eqb_eq. split.
    + intros ->. repeat split; [lia | destruct hi; [lia | done] | constructor].
    + intros (H & _ & _). lia.
  - rewrite andb_true_iff, IH1, IH2. split.
    + intros [H1 H2]. exists [], []. done.
    + intros (s1 & s2 & Heq & H1 & H2).
      symmetry in Heq. apply app_eq_nil in Heq as [-> ->]. done.
  - rewrite orb_true_iff, IH1, IH2. tauto.
Qed.

Lemma deriv_lang r : ∀ c s, lang (deriv c r) s ↔ lang r (c :: s).
Proof.
  induction r as [| |cls lo hi|r1 IH1 r2 IH2|r1 IH1 r2 IH2];
    intros c s; simpl.
  - tauto.
  - split; [tauto | discriminate].
  - destruct (cls c) eqn:Hc; simpl.
    + destruct hi as [[|h]|]; simpl.
      * split; [tauto | intros (_ & H & _); lia].
      * rewrite Forall_cons. split.
        -- intros (H1 & H2 & H3). repeat split; [lia | lia | done | done].
        -- intros (H1 & H2 & _ & H3). repeat split; [lia | lia | done].
      * rewrite Forall_cons. split.
        -- intros (H1 & _ & H3). repeat split; [lia | done | done].
        -- intros (H1 & _ & _ & H3). repeat split; [lia | done].
    + rewrite Forall_cons. split; [tauto |].
      intros (_ & _ & H & _). congruence.
  - assert (Hcat : lang (Cat (deriv c r1) r2) s
                   ↔ ∃ s1 s2, c :: s = (c :: s1) ++ s2
                              ∧ lang r1 (c :: s1) ∧ lang r2 s2).
    { simpl. split; intros (s1 & s2 & Heq & H1 & H2); exists s1, s2.
      - subst s. by rewrite <- IH1.
      - injection Heq as ->. by rewrite IH1. }
    destruct (nullable r1) eqn:Hn.
    + change (lang (Alt ?a ?b) s) with (lang a s ∨ lang b s).
      rewrite Hcat, IH2. split.
      * intros [(s1 & s2 & Heq & H1 & H2) | H].
        -- by exists (c :: s1), s2.
        -- exists [], (c :: s). repeat split; [|done].
           by apply nullable_lang.
      * intros (s1 & s2 & Heq & H1 & H2). destruct s1 as [|c' s1].
        -- right. simpl in Heq. by subst s2.
        -- left. injection Heq as <- ->. by exists s1, s2.
    + rewrite Hcat. split.
      * intros (s1 & s2 & Heq & H1 & H2). by exists (c :: s1), s2.
      * intros (s1 & s2 & Heq & H1 & H2). destruct s1 as [|c' s1].
        -- apply nullable_lang in H1. congruence.
        -- injection Heq as <- ->. by exists s1, s2.
  - by rewrite IH1, IH2.
Qed.

(** The derivative matcher accepts exactly the words of the
    expression. *)
Lemma test_lang s : ∀ r, test r s = true ↔ lang r s.
Proof.
  induction s as [|c s IH]; intros r; simpl.
  - apply nullable_lang.
  - by rewrite IH, deriv_lang.
Qed.

Lemma test_Rep cls lo h s :
  test (Rep cls lo (Some h)) s = true
  ↔ (lo ≤ length s ≤ h)%nat ∧ Forall (λ c, cls c = true) s.
Proof. rewrite test_lang. simpl. tauto. Qed.

Lemma any_cls_true c : ALLOWED_PATTERNS.any_cls c = true.
Proof. unfold ALLOWED_PATTERNS.any_cls. by destruct (is_space c). Qed.

(** [name]: 2 to 100 code units, each a letter a-z, A-Z or À-ÿ, white
    space, an apostrophe or a hyphen. *)
Lemma test_name s :
  test ALLOWED_PATTERNS.name s = true
  ↔ (2 ≤ length s ≤ 100)%nat
    ∧ Forall (λ c, ALLOWED_PATTERNS.name_cls c = true) s.
Proof. apply test_Rep. Qed.

(** [message]: 10 to 2000 code units, whatever they are. *)
Lemma test_message s :
  test ALLOWED_PATTERNS.message s = true ↔ (10 ≤ length s ≤ 2000)%nat.
Proof.
  unfold ALLOWED_PATTERNS.message. rewrite test_Rep. split; [tauto |].
  intros H. split; [done |]. apply Forall_forall. intros c _.
  apply any_cls_true.
Qed.

(** [phone]: at most 20 code units of the phone class. *)
Lemma test_phone s :
  test ALLOWED_PATTERNS.phone s = true
  ↔ (length s ≤ 20)%nat
    ∧ Forall (λ c, ALLOWED_PATTERNS.phone_cls c = true) s.
Proof.
  unfold ALLOWED_PATTERNS.phone. rewrite test_Rep.
  split; intros [H1 H2]; (split; [lia | done]).
Qed.

End RegexFacts.

(** * Properties of the sanitizer *)

Section SanitizerFacts.

Implicit Types (s t out : jsstring) (c : N).

Lemma lang_Chr c s : lang (Chr c) s ↔ s = [c].
Proof.
  simpl. split.
  - intros (H1 & H2 & H3). destruct s as [|c1 [|c2 s]]; simpl in *; try lia.
    apply Forall_cons in H3 as [H3 _]. apply N.eqb_eq in H3. by subst.
  - intros ->. simpl. repeat split; [lia | lia |].
    repeat constructor. apply N.eqb_refl.
Qed.

(** A match of the pattern is a [<], then characters other than [>],
    then a [>]. *)
Lemma test_tag_pattern t :
  test tag_pattern t = true ↔ ∃ m, t = LT :: m ++ [GT] ∧ GT ∉ m.
Proof.
  rewrite test_lang. unfold tag_pattern.
  change (lang (Cat ?a ?b) ?x)
    with (∃ s1 s2, x = s1 ++ s2 ∧ lang a s1 ∧ lang b s2).
  split.
  - intros (s1 & s2 & -> & H1 & (m & s4 & -> & Hm & H4)).
    apply lang_Chr in H1 as ->. apply lang_Chr in H4 as ->.
    exists m. split; [done |]. destruct Hm as (_ & _ & Hm).
    intros Hin. rewrite Forall_forall in Hm. specialize (Hm _ Hin).
    vm_compute in Hm. discriminate.
  - intros (m & -> & Hm). exists [LT], (m ++ [GT]).
    split; [done |]. split; [by apply lang_Chr |].
    exists m, [GT]. split; [done |]. split; [| by apply lang_Chr].
    simpl. repeat split; [lia |]. apply Forall_forall. intros c Hc.
    destruct (N.eqb_spec c GT) as [->|]; [done | done].
Qed.

Lemma close_tag_None s : close_tag s = None ↔ GT ∉ s.
Proof.
  induction s as [|c s IH]; simpl.
  - split; [intros _; apply not_elem_of_nil | done].
  - rewrite not_elem_of_cons. destruct (N.eqb_spec c GT) as [->|Hne].
    + split; [discriminate | intros [? _]; done].
    + rewrite IH. split; [intros H; split; [congruence | done] | tauto].
Qed.

(** The scan takes out matches of the pattern and nothing else. *)
Lemma strip_tags_Removed s :
  Removed s (strip_tags s)
  ∧ ∀ out, close_tag s = Some out →
      ∃ m rest, s = m ++ GT :: rest ∧ (GT ∉ m) ∧ Removed rest out.
Proof.
  induction s as [|c s [IH1 IH2]]; simpl.
  - split; [constructor | discriminate].
  - split.
    + destruct (N.eqb_spec c LT) as [->|Hne]; [| by constructor].
      destruct (close_tag s) as [out|] eqn:Hc; [| by constructor].
      destruct (IH2 out eq_refl) as (m & rest & -> & Hm & Hr).
      change (LT :: m ++ GT :: rest) with ((LT :: m) ++ [GT] ++ rest).
      rewrite app_assoc. apply Removed_tag; [| done].
      apply test_tag_pattern. by exists m.
    + intros out. destruct (N.eqb_spec c GT) as [->|Hne].
      * intros [= <-]. exists [], s. split; [done |].
        split; [apply not_elem_of_nil | done].
      * intros Hc. destruct (IH2 out Hc) as (m & rest & -> & Hm & Hr).
        exists (c :: m), rest. split; [done |]. split; [| done].
        rewrite not_elem_of_cons. done.
Qed.

(** What is kept was there. *)
Lemma Removed_elem s out : Removed s out → ∀ c, c ∈ out → c ∈ s.
Proof.
  induction 1 as [|c' s out _ IH|t s out _ _ IH]; intros c Hc.
  - done.
  - apply elem_of_cons in Hc as [->|Hc]; [left | right; by apply IH].
  - apply elem_of_app. right. by apply IH.
Qed.

Lemma tag_free_nil : tag_free [].
Proof. intros pre post H. by destruct pre. Qed.

Lemma tag_free_cons_other c s : c ≠ LT → tag_free s → tag_free (c :: s).
Proof.
  intros Hne Hs pre post Heq. destruct pre as [|c' pre]; simpl in Heq.
  - congruence.
  - injection Heq as _ ->. by eapply Hs.
Qed.

Lemma tag_free_cons_open s : GT ∉ s → tag_free s → tag_free (LT :: s).
Proof.
  intros Hgt Hs pre post Heq. destruct pre as [|c' pre]; simpl in Heq.
  - by injection Heq as <-.
  - injection Heq as _ ->. by eapply Hs.
Qed.

Lemma tag_free_inv c s : tag_free (c :: s) → tag_free s.
Proof. intros H pre post ->. by apply (H (c :: pre) post). Qed.

(** Behind the scan no [<] is followed by a [>]. *)
Lemma strip_tags_tag_free s :
  tag_free (strip_tags s)
  ∧ ∀ out, close_tag s = Some out → tag_free out.
Proof.
  induction s as [|c s [IH1 IH2]]; simpl.
  - split; [apply tag_free_nil | discriminate].
  - split.
    + destruct (N.eqb_spec c LT) as [->|Hne];
        [| by apply tag_free_cons_other].
      destruct (close_tag s) as [out|] eqn:Hc; [by apply IH2 |].
      apply tag_free_cons_open; [| done].
      apply close_tag_None in Hc. intros Hin. apply Hc.
      eapply Removed_elem; [apply strip_tags_Removed | done].
    + intros out. destruct (N.eqb_spec c GT) as [->|Hne]; [| apply IH2].
      by intros [= <-].
Qed.

(** On such a string the scan finds nothing to take out. *)
Lemma strip_tags_id s : tag_free s → strip_tags s = s.
Proof.
  induction s as [|c s IH]; intros Hs; simpl; [done |].
  pose proof (tag_free_inv _ _ Hs) as Hs'.
  destruct (N.eqb_spec c LT) as [->|Hne]; [| by rewrite IH].
  assert (Hc : close_tag s = None).
  { apply close_tag_None. by apply (Hs [] s). }
  rewrite Hc. by rewrite IH.
Qed.

Lemma tag_free_no_match s :
  tag_free s → ∀ pre t post, s = pre ++ t ++ post → test tag_pattern t = false.
Proof.
  intros Hs pre t post ->.
  destruct (test tag_pattern t) eqn:Ht; [exfalso | done].
  apply test_tag_pattern in Ht as (m & -> & _).
  apply (Hs pre (m ++ [GT] ++ post)).
  - simpl. by rewrite <- app_assoc.
  - apply elem_of_app. right. left.
Qed.

(** C5: the sanitizer is idempotent on strings. *)
Theorem stripHTML_idempotent (x : jsstring) :
  stripHTML (Str (stripHTML (Str x))) = stripHTML (Str x).
Proof.
  unfold stripHTML. simpl. apply strip_tags_id, strip_tags_tag_free.
Qed.

(** C6: [stripHTML] is a total function; a value that is not a string
    gives the empty string, and a string gives the string with
    matches of [<[^>]*>] taken out and every other character left in
    place, so that no substring of the result matches the pattern. *)
Theorem stripHTML_removes_every_tag (v : value) :
  match v with
  | Str s =>
      Removed s (stripHTML v)
      ∧ ∀ pre t post,
          stripHTML v = pre ++ t ++ post → test tag_pattern t = false
  | _ => stripHTML v = []
  end.
Proof.
  destruct v as [| |b|x|s|xs|props]; try reflexivity.
  unfold stripHTML. simpl. split.
  - apply strip_tags_Removed.
  - apply tag_free_no_match, strip_tags_tag_free.
Qed.

Lemma stripHTML_removes_every_tag_witness :
  Removed (js "<b>Hi</b> there") (js "Hi there")
  ∧ test tag_pattern (js "Hi") = false.
Proof.
  pose proof (stripHTML_removes_every_tag (Str (js "<b>Hi</b> there")))
    as [H1 H2].
  split; [exact H1 |].
  apply (H2 [] (js "Hi") (js " there")). reflexivity.
Defined.

End SanitizerFacts.

(** * Properties of the validator *)

Section ValidatorFacts.

Implicit Types (props : gmap jsstring value) (v : value) (s : jsstring).

Lemma test_Rep_bool cls lo h s :
  test (Rep cls lo (Some h)) s = between lo h (length s) && forallb cls s.
Proof.
  apply eq_true_iff_eq. rewrite test_Rep. unfold between.
  rewrite !andb_true_iff, !Nat.leb_le, forallb_forall, Forall_forall.
  split; intros [H1 H2]; (split; [done |]); intros c Hc; apply H2.
  - by apply list_elem_of_In.
  - by apply list_elem_of_In in Hc.
Qed.

Lemma test_message_bool s :
  test ALLOWED_PATTERNS.message s = between 10 2000 (length s).
Proof.
  unfold ALLOWED_PATTERNS.message. rewrite test_Rep_bool.
  replace (forallb ALLOWED_PATTERNS.any_cls s) with true;
    [apply andb_true_r |].
  symmetry. apply forallb_forall. intros c _. apply any_cls_true.
Qed.

Lemma get_Obj props (k : string) : get (Obj props) (js k) = Ok (field props k).
Proof. reflexivity. Qed.

(** Each condition of the validator returns, and is true exactly when
    the field breaks its contract. *)
Lemma name_fails_Obj props :
  name_fails (Obj props) = Ok (negb (Contract.name_ok (field props "name"))).
Proof.
  unfold name_fails. rewrite !get_Obj.
  destruct (field props "name") as [| |b|x|s|xs|ps]; try reflexivity.
  - by destruct b.
  - by destruct x.
  - destruct s as [|c s]; [reflexivity |].
    cbn [bind orM ToBoolean negb typeof call_trim String.eqb Ascii.eqb
         Bool.eqb Contract.name_ok].
    unfold ALLOWED_PATTERNS.name. by rewrite test_Rep_bool.
Qed.

Lemma email_fails_Obj props :
  email_fails (Obj props)
  = Ok (negb (Contract.email_ok (field props "email"))).
Proof.
  unfold email_fails. rewrite !get_Obj.
  destruct (field props "email") as [| |b|x|s|xs|ps]; try reflexivity.
  - by destruct b.
  - by destruct x.
  - by destruct s as [|c s].
Qed.

Lemma phone_fails_Obj props :
  phone_fails (Obj props)
  = Ok (match field props "phone" with
        | Str s => negb (Contract.phone_ok (Str s))
        | _ => false
        end).
Proof.
  unfold phone_fails. rewrite !get_Obj.
  destruct (field props "phone") as [| |b|x|s|xs|ps]; try reflexivity.
  - by destruct b.
  - by destruct x.
  - destruct s as [|c s]; [reflexivity |].
    cbn [bind andM ToBoolean negb typeof call_trim String.eqb Ascii.eqb
         Bool.eqb Contract.phone_ok].
    unfold is_blank. by destruct (trim (c :: s)).
Qed.

Lemma phone_fails_typed props :
  Contract.phone_typed (field props "phone") →
  phone_fails (Obj props)
  = Ok (negb (Contract.phone_ok (field props "phone"))).
Proof.
  intros Hty. rewrite phone_fails_Obj.
  destruct Hty as [Hf | [s ->]]; [| done].
  destruct (field props "phone") as [| |b|x|s|xs|ps]; simpl in *;
    try done.
  - by rewrite Hf.
  - by destruct x.
Qed.

Lemma subject_fails_Obj props :
  subject_fails (Obj props)
  = Ok (negb (Contract.subject_ok (field props "subject"))).
Proof.
  unfold subject_fails. rewrite !get_Obj.
  destruct (field props "subject") as [| |b|x|s|xs|ps]; try reflexivity.
  - by destruct b.
  - by destruct x.
  - by destruct s as [|c s].
Qed.

Lemma message_fails_Obj props :
  message_fails (Obj props)
  = Ok (negb (Contract.message_ok (field props "message"))).
Proof.
  unfold message_fails. rewrite !get_Obj.
  destruct (field props "message") as [| |b|x|s|xs|ps]; try reflexivity.
  - by destruct b.
  - by destruct x.
  - destruct s as [|c s]; [reflexivity |].
    cbn [bind orM ToBoolean negb typeof call_trim String.eqb Ascii.eqb
         Bool.eqb Contract.message_ok].
    by rewrite test_message_bool.
Qed.

(** Reading a property of a boolean, a number, a string or an array
    gives [undefined], as on the empty object. *)
Lemma validateFormData_primitive data :
  data ≠ Undefined → data ≠ Null →
  (∀ props, data ≠ Obj props) →
  validateFormData data = validateFormData (Obj ∅).
Proof.
  intros H1 H2 H3. destruct data; try done. by destruct (H3 props).
Qed.

(** The validator as a function of the five verdicts. *)
Lemma validateFormData_Obj props :
  ∃ bp,
    phone_fails (Obj props) = Ok bp
    ∧ validateFormData (Obj props)
      = let errors : gmap string string := ∅ in
        let errors :=
          if Contract.name_ok (field props "name") then errors
          else <["name" := "Invalid name"]> errors in
        let errors :=
          if Contract.email_ok (field props "email") then errors
          else <["email" := "Invalid email"]> errors in
        let errors :=
          if bp then <["phone" := "Invalid phone"]> errors else errors in
        let errors :=
          if Contract.subject_ok (field props "subject") then errors
          else <["subject" := "Invalid subject"]> errors in
        let errors :=
          if Contract.message_ok (field props "message") then errors
          else <["message" := "Invalid message"]> errors in
        Ok {| valid := Nat.eqb (length (Object_keys errors)) 0;
              errors := errors |}.
Proof.
  eexists. split; [apply phone_fails_Obj |].
  unfold validateFormData, report.
  rewrite name_fails_Obj, email_fails_Obj, phone_fails_Obj,
    subject_fails_Obj, message_fails_Obj.
  cbn [bind].
  destruct (Contract.name_ok _), (Contract.email_ok _),
    (Contract.subject_ok _), (Contract.message_ok _); reflexivity.
Qed.

(** [Object.keys(errors).length === 0] says that no error was
    recorded. *)
Lemma Object_keys_empty (m : gmap string string) :
  Nat.eqb (length (Object_keys m)) 0 = true ↔ m = ∅.
Proof.
  unfold Object_keys. rewrite Nat.eqb_eq, length_fmap, length_zero_iff_nil.
  apply map_to_list_empty_iff.
Qed.

(** C4, as the specification states it, fails.  The validator tests
    the trimmed value of a string, and looks at the phone only when
    it is a string:
    - an email with a leading space does not match the email pattern,
      and a message of 2000 letters and a space has 2001 characters,
      yet the submission is valid;
    - a name made of a space and a letter has two allowed characters,
      and the submission meets the table, yet it is rejected;
    - a phone that is the boolean [true] is neither absent nor blank
      nor a match, yet the submission is valid. *)
Lemma validateFormData_not_on_raw_values :
  (SpecContract.email_ok (Str (js " marco@example.com")) = false
   ∧ SpecContract.message_ok (Str (repeat 65%N 2000 ++ [32%N])) = false
   ∧ validateFormData
       (object [("name", Str (js "Marco Rossi"));
                ("email", Str (js " marco@example.com"));
                ("subject", Str (js "info"));
                ("message", Str (repeat 65%N 2000 ++ [32%N]))])
     = Ok {| valid := true; errors := ∅ |})
  ∧ (SpecContract.all_ok (Str (js " A")) (Str (js "marco@example.com"))
       Undefined (Str (js "info")) (Str (js "Test message content here."))
     = true
     ∧ validateFormData
         (object [("name", Str (js " A"));
                  ("email", Str (js "marco@example.com"));
                  ("subject", Str (js "info"));
                  ("message", Str (js "Test message content here."))])
       = Ok {| valid := false;
               errors := {[ "name" := "Invalid name" ]} |})
  ∧ (SpecContract.phone_ok (Bool true) = false
     ∧ validateFormData
         (object [("name", Str (js "Marco Rossi"));
                  ("email", Str (js "marco@example.com"));
                  ("phone", Bool true);
                  ("subject", Str (js "info"));
                  ("message", Str (js "Test message content here."))])
       = Ok {| valid := true; errors := ∅ |}).
Proof. vm_compute. repeat split. Qed.

(** C4, amended: for a submission whose phone is left out or is a
    string, the validator returns [valid = true], with no error,
    exactly when the name is a string of 2 to 100 allowed characters
    once trimmed, the email is a string that matches its pattern once
    trimmed, the phone is falsy, blank or matches its pattern once
    trimmed, the subject is one of the four allowed strings, and the
    message is a string of 10 to 2000 characters once trimmed.  The
    errors hold the key of each field that fails, all of them in one
    pass, and no other key. *)
Theorem validateFormData_whitelist props :
  Contract.phone_typed (field props "phone") →
  ∃ r,
    validateFormData (Obj props) = Ok r
    ∧ (valid r = true
       ↔ Contract.name_ok (field props "name")
         && Contract.email_ok (field props "email")
         && Contract.phone_ok (field props "phone")
         && Contract.subject_ok (field props "subject")
         && Contract.message_ok (field props "message") = true)
    ∧ (valid r = true → errors r = ∅)
    ∧ errors r !! "name"
      = (if Contract.name_ok (field props "name") then None
         else Some "Invalid name")
    ∧ errors r !! "email"
      = (if Contract.email_ok (field props "email") then None
         else Some "Invalid email")
    ∧ errors r !! "phone"
      = (if Contract.phone_ok (field props "phone") then None
         else Some "Invalid phone")
    ∧ errors r !! "subject"
      = (if Contract.subject_ok (field props "subject") then None
         else Some "Invalid subject")
    ∧ errors r !! "message"
      = (if Contract.message_ok (field props "message") then None
         else Some "Invalid message")
    ∧ dom (errors r) ⊆ {[ "name"; "email"; "phone"; "subject"; "message" ]}.
Proof.
  intros Hty. destruct (validateFormData_Obj props) as (bp & Hbp & Heq).
  rewrite (phone_fails_typed _ Hty) in Hbp. injection Hbp as <-.
  eexists. split; [exact Heq |].
  cbn [valid errors].
  split; [| split; [apply Object_keys_empty |]].
  - rewrite Object_keys_empty.
    destruct (Contract.name_ok _), (Contract.email_ok _),
      (Contract.phone_ok _), (Contract.subject_ok _),
      (Contract.message_ok _); cbn [negb andb];
      solve [ done
            | split; [intros H; by apply insert_non_empty in H
                     | discriminate] ].
  - destruct (Contract.name_ok _), (Contract.email_ok _),
      (Contract.phone_ok _), (Contract.subject_ok _),
      (Contract.message_ok _); cbn [negb];
      do 5 (split; [vm_compute; reflexivity |]);
      apply (bool_decide_unpack _); vm_compute; exact I.
Qed.

Lemma validateFormData_whitelist_witness :
  ∃ r,
    validateFormData
      (object [("name", Str (js "Marco Rossi"));
               ("email", Str (js "marco@example.com"));
               ("phone", Str (js "+39 06 1234567"));
               ("subject", Str (js "info"));
               ("message", Str (js "I want information about cohousing."))])
    = Ok r
    ∧ valid r = true.
Proof.
  destruct (validateFormData_whitelist
              (list_to_map
                 [(js "name", Str (js "Marco Rossi"));
                  (js "email", Str (js "marco@example.com"));
                  (js "phone", Str (js "+39 06 1234567"));
                  (js "subject", Str (js "info"));
                  (js "message",
                   Str (js "I want information about cohousing."))]))
    as (r & Hr & Hv & _).
  - right. eexists. vm_compute. reflexivity.
  - exists r. split; [exact Hr |]. apply Hv. vm_compute. reflexivity.
Defined.

(** C10: on an object, whatever the types of its fields, and more
    generally on every value but [undefined] and [null], the
    validator does not throw: it returns a result.  ([call_trim]
    throws on what is not a string, so each [trim] is reached with a
    string only.) *)
Theorem validateFormData_never_throws (data : value) :
  data ≠ Undefined → data ≠ Null →
  ∃ r, validateFormData data = Ok r.
Proof.
  intros H1 H2.
  assert (Hobj : ∀ props, ∃ r, validateFormData (Obj props) = Ok r).
  { intros props. destruct (validateFormData_Obj props) as (bp & _ & Heq).
    rewrite Heq. eexists. reflexivity. }
  destruct data as [| |b|x|s|xs|props].
  - done.
  - done.
  - rewrite validateFormData_primitive by done. apply Hobj.
  - rewrite validateFormData_primitive by done. apply Hobj.
  - rewrite validateFormData_primitive by done. apply Hobj.
  - rewrite validateFormData_primitive by done. apply Hobj.
  - apply Hobj.
Qed.

Lemma validateFormData_never_throws_witness :
  ∃ r,
    validateFormData
      (object [("name", Num (SpecFloat.S754_finite false 5 0));
               ("email", Arr [Null]);
               ("phone", Num (SpecFloat.S754_finite false 7 0));
               ("subject", Obj ∅);
               ("message", Null)])
    = Ok r.
Proof.
  apply validateFormData_never_throws.
  - intros H. discriminate H.
  - intros H. discriminate H.
Defined.

(** What [toLowerCase] is applied to: a string that matches the email
    pattern has code units below 128 only. *)
Lemma email_is_ascii s :
  test ALLOWED_PATTERNS.email s = true → Forall (λ c, (c < 128)%N) s.
Proof.
  rewrite test_lang. unfold ALLOWED_PATTERNS.email.
  intros (s1 & r1 & -> & (_ & _ & H1)
          & (s2 & r2 & -> & H2
             & (s3 & r3 & -> & (_ & _ & H3)
                & (s4 & s5 & -> & H4 & (_ & _ & H5))))).
  apply lang_Chr in H2 as ->. apply lang_Chr in H4 as ->.
  assert (Hal : ∀ c, alpha c = true → (c < 128)%N).
  { intros c. unfold alpha, lower, upper, range.
    rewrite orb_true_iff, !andb_true_iff, !N.leb_le. lia. }
  assert (Hdi : ∀ c, digit c = true → (c < 128)%N).
  { intros c. unfold digit, range. rewrite andb_true_iff, !N.leb_le. lia. }
  repeat rewrite Forall_app. repeat split.
  - eapply Forall_impl; [exact H1 |]. intros c.
    unfold ALLOWED_PATTERNS.local_cls.
    rewrite !orb_true_iff, !N.eqb_eq.
    intros [[[[[[Hc|Hc]|Hc]|Hc]|Hc]|Hc]|Hc]; auto; lia.
  - repeat constructor.
  - eapply Forall_impl; [exact H3 |]. intros c.
    unfold ALLOWED_PATTERNS.domain_cls.
    rewrite !orb_true_iff, !N.eqb_eq.
    intros [[[Hc|Hc]|Hc]|Hc]; auto; lia.
  - repeat constructor.
  - eapply Forall_impl; [exact H5 |]. exact Hal.
Qed.

End ValidatorFacts.

(** * Properties of the rate limiter *)

Section RateLimiterFacts.

Implicit Types (st : Store) (ip : jsstring) (now : Z) (e : Entry).

Lemma isRateLimited_fresh ip now st :
  st !! ip = None →
  isRateLimited ip now st
  = (false, <[ip := {| count := 1; firstRequest := now |}]> st).
Proof. intros H. unfold isRateLimited. by rewrite H. Qed.

Lemma isRateLimited_expired ip now st e :
  st !! ip = Some e →
  now - firstRequest e > RATE_LIMIT_WINDOW_MS →
  isRateLimited ip now st
  = (false, <[ip := {| count := 1; firstRequest := now |}]> st).
Proof.
  intros H Hgt. unfold isRateLimited. rewrite H.
  destruct (Z.gtb_spec (now - firstRequest e) RATE_LIMIT_WINDOW_MS); [done | lia].
Qed.

Lemma isRateLimited_full ip now st e :
  st !! ip = Some e →
  now - firstRequest e ≤ RATE_LIMIT_WINDOW_MS →
  RATE_LIMIT_MAX ≤ count e →
  isRateLimited ip now st = (true, st).
Proof.
  intros H Hle Hc. unfold isRateLimited. rewrite H.
  destruct (Z.gtb_spec (now - firstRequest e) RATE_LIMIT_WINDOW_MS); [lia |].
  destruct (Z.geb_spec (count e) RATE_LIMIT_MAX); [done | lia].
Qed.

Lemma isRateLimited_bump ip now st e :
  st !! ip = Some e →
  now - firstRequest e ≤ RATE_LIMIT_WINDOW_MS →
  count e < RATE_LIMIT_MAX →
  isRateLimited ip now st
  = (false, <[ip := {| count := count e + 1;
                       firstRequest := firstRequest e |}]> st).
Proof.
  intros H Hle Hc. unfold isRateLimited. rewrite H.
  destruct (Z.gtb_spec (now - firstRequest e) RATE_LIMIT_WINDOW_MS); [lia |].
  destruct (Z.geb_spec (count e) RATE_LIMIT_MAX); [lia | done].
Qed.

Lemma store_ok_empty : store_ok rateLimitStore0.
Proof. intros ip e H. unfold rateLimitStore0 in H. by rewrite lookup_empty in H. Qed.

Lemma store_ok_insert ip e st :
  store_ok st → 1 ≤ count e ≤ RATE_LIMIT_MAX → store_ok (<[ip := e]> st).
Proof.
  intros Hst He ip' e' H. destruct (decide (ip = ip')) as [->|Hne].
  - rewrite lookup_insert_eq in H. by inversion H; subst.
  - rewrite lookup_insert_ne in H by done. by eapply Hst.
Qed.

Lemma isRateLimited_store_ok ip now st :
  store_ok st → store_ok (isRateLimited ip now st).2.
Proof.
  intros Hst. unfold isRateLimited.
  destruct (st !! ip) as [e|] eqn:He; simpl.
  - destruct (_ >? _); simpl.
    + apply store_ok_insert; [done | unfold RATE_LIMIT_MAX; simpl; lia].
    + destruct (Z.geb_spec (count e) RATE_LIMIT_MAX); simpl; [done |].
      apply store_ok_insert; [done | simpl]. specialize (Hst _ _ He). lia.
  - apply store_ok_insert; [done | unfold RATE_LIMIT_MAX; simpl; lia].
Qed.

Lemma calls_store_ok cs : ∀ st, store_ok st → store_ok (calls cs st).2.
Proof.
  induction cs as [|[ip now] cs IH]; intros st Hst; simpl; [done |].
  pose proof (isRateLimited_store_ok ip now st Hst) as H1.
  destruct (isRateLimited ip now st) as [r st'] eqn:E1. simpl in H1.
  specialize (IH st' H1).
  destruct (calls cs st') as [rs st''] eqn:E2. done.
Qed.

(** C2: from no entry, four attempts inside one window give admit,
    admit, admit, reject, and an attempt more than a window length
    after the first is admitted again.  (The limiter answers [true]
    for "rate limited", so admit is [false].) *)
Theorem four_attempts_then_new_window st ip (t1 t2 t3 t4 t5 : Z) :
  st !! ip = None →
  t2 - t1 ≤ RATE_LIMIT_WINDOW_MS →
  t3 - t1 ≤ RATE_LIMIT_WINDOW_MS →
  t4 - t1 ≤ RATE_LIMIT_WINDOW_MS →
  t5 - t1 > RATE_LIMIT_WINDOW_MS →
  (calls [(ip, t1); (ip, t2); (ip, t3); (ip, t4); (ip, t5)] st).1
  = [false; false; false; true; false].
Proof.
  intros Hnone H2 H3 H4 H5. unfold RATE_LIMIT_WINDOW_MS in *.
  cbn [calls].
  rewrite (isRateLimited_fresh _ _ _ Hnone).
  do 4 (limiter_step; unfold RATE_LIMIT_WINDOW_MS, RATE_LIMIT_MAX in *;
        try lia).
  reflexivity.
Qed.

Lemma four_attempts_then_new_window_witness :
  (calls [(js "203.0.113.7", 1000); (js "203.0.113.7", 2000);
          (js "203.0.113.7", 3000); (js "203.0.113.7", 901000);
          (js "203.0.113.7", 901001)] rateLimitStore0).1
  = [false; false; false; true; false].
Proof.
  apply (four_attempts_then_new_window rateLimitStore0 (js "203.0.113.7")
           1000 2000 3000 901000 901001).
  - reflexivity.
  - unfold RATE_LIMIT_WINDOW_MS; lia.
  - unfold RATE_LIMIT_WINDOW_MS; lia.
  - unfold RATE_LIMIT_WINDOW_MS; lia.
  - unfold RATE_LIMIT_WINDOW_MS; lia.
Defined.

(** C3, as the specification states it, fails: an identity that used
    its three submissions at time 0 and comes back exactly one window
    length later is rejected, and its entry is left as it was. *)
Lemma boundary_request_not_reset :
  let ip := js "203.0.113.7" in
  let e := {| count := 3; firstRequest := 0 |} in
  let st : Store := {[ ip := e ]} in
  st !! ip = Some e
  ∧ 900000 - firstRequest e = RATE_LIMIT_WINDOW_MS
  ∧ isRateLimited ip 900000 st = (true, st)
  ∧ isRateLimited ip 900000 st
    ≠ (false, <[ip := {| count := 1; firstRequest := 900000 |}]> st).
Proof.
  intros ip e st.
  assert (E : isRateLimited ip 900000 st = (true, st)) by reflexivity.
  split; [reflexivity |]. split; [reflexivity |]. split; [exact E |].
  rewrite E. intros H. discriminate H.
Qed.

(** C3, amended: a request exactly one window length after
    [firstRequest] still belongs to the running window.  The entry is
    not reset: below the maximum the request is admitted and counted
    in the same window, at the maximum it is rejected and the store
    is unchanged. *)
Theorem boundary_request_in_old_window st ip e now :
  st !! ip = Some e →
  now - firstRequest e = RATE_LIMIT_WINDOW_MS →
  isRateLimited ip now st
  = if count e >=? RATE_LIMIT_MAX then (true, st)
    else (false, <[ip := {| count := count e + 1;
                            firstRequest := firstRequest e |}]> st).
Proof.
  intros H Hb.
  destruct (Z.geb_spec (count e) RATE_LIMIT_MAX).
  - apply (isRateLimited_full _ _ _ _ H); lia.
  - apply (isRateLimited_bump _ _ _ _ H); lia.
Qed.

Lemma boundary_request_in_old_window_witness :
  isRateLimited (js "203.0.113.7") 900000
    {[ js "203.0.113.7" := {| count := 2; firstRequest := 0 |} ]}
  = (false,
     <[js "203.0.113.7" := {| count := 3; firstRequest := 0 |}]>
       {[ js "203.0.113.7" := {| count := 2; firstRequest := 0 |} ]}).
Proof.
  apply (boundary_request_in_old_window
           {[ js "203.0.113.7" := {| count := 2; firstRequest := 0 |} ]}
           (js "203.0.113.7") {| count := 2; firstRequest := 0 |} 900000).
  - reflexivity.
  - reflexivity.
Defined.

(** C9: after any sequence of calls from the empty store every
    counter is between 1 and [RATE_LIMIT_MAX]; and on such a store a
    call resets the entry to count 1 with a fresh start when more
    than a window length has elapsed, otherwise adds one only while
    the counter is below the maximum, and otherwise rejects and
    leaves the store as it is. *)
Theorem count_between_one_and_max (cs : list (jsstring * Z)) :
  let st := (calls cs rateLimitStore0).2 in
  store_ok st
  ∧ ∀ ip now,
      match st !! ip with
      | None => True
      | Some e =>
          let '(limited, st') := isRateLimited ip now st in
          if now - firstRequest e >? RATE_LIMIT_WINDOW_MS then
            limited = false
            ∧ st' = <[ip := {| count := 1; firstRequest := now |}]> st
          else if count e <? RATE_LIMIT_MAX then
            limited = false
            ∧ st' = <[ip := {| count := count e + 1;
                               firstRequest := firstRequest e |}]> st
          else
            limited = true ∧ st' = st
      end.
Proof.
  intros st. split.
  - apply calls_store_ok, store_ok_empty.
  - intros ip now. destruct (st !! ip) as [e|] eqn:He; [|done].
    destruct (Z.gtb_spec (now - firstRequest e) RATE_LIMIT_WINDOW_MS).
    + rewrite (isRateLimited_expired _ _ _ _ He) by lia. done.
    + destruct (Z.ltb_spec (count e) RATE_LIMIT_MAX).
      * rewrite (isRateLimited_bump _ _ _ _ He) by lia. done.
      * rewrite (isRateLimited_full _ _ _ _ He) by lia. done.
Qed.

End RateLimiterFacts.

(** * Properties of the handler *)

Section EndpointFacts.

Implicit Types (ctx : Context) (req : Request) (w : World) (now : Z).

(** The first element of [h.split(',')] is [h] up to its first
    comma. *)
Lemma split_first (h : jsstring) :
  ∃ first others rest,
    split 44 h = first :: others
    ∧ h = first ++ rest
    ∧ (44%N ∉ first)
    ∧ (rest = [] ∨ ∃ r, rest = 44%N :: r).
Proof.
  induction h as [|c h (first & others & rest & Hs & Hh & Hno & Hrest)].
  - exists [], [], []. repeat split; [apply not_elem_of_nil | by left].
  - simpl. destruct (N.eqb_spec c 44) as [->|Hne].
    + exists [], (split 44 h), (44%N :: h).
      repeat split; [apply not_elem_of_nil | right; by exists h].
    + rewrite Hs. exists (c :: first), others, rest.
      repeat split; [by rewrite Hh at 1 | | done].
      rewrite not_elem_of_cons. split; [congruence | done].
Qed.

(** C7: resolving the client identity always returns a string: the
    first entry of the forwarded-for header (the header up to its
    first comma) when the header is there and that entry is not
    empty, otherwise the connection address when there is one (and it
    is not empty), otherwise ["unknown"]. *)
Theorem clientIp_policy req :
  let direct :=
    match ip req with
    | Some (c :: a) => c :: a
    | _ => js "unknown"
    end in
  match x_forwarded_for req with
  | Some h =>
      ∃ first rest,
        h = first ++ rest
        ∧ (44%N ∉ first)
        ∧ (rest = [] ∨ ∃ r, rest = 44%N :: r)
        ∧ clientIp req = match first with [] => direct | _ => first end
  | None => clientIp req = direct
  end.
Proof.
  intros direct. unfold clientIp, direct.
  destruct req as [xff i b]; simpl.
  destruct xff as [h|].
  - destruct (split_first h) as (first & others & rest & Hs & Hh & Hno & Hr).
    exists first, rest. repeat split; try done.
    rewrite Hs. simpl. destruct first as [|c f]; [| done].
    by destruct i as [[|c a]|].
  - by destruct i as [[|c a]|].
Qed.

Lemma get_body req (k : string) :
  get (body_or_empty req) (js k) = Ok (body_prop req k).
Proof.
  unfold body_prop, body_or_empty.
  destruct (body req) as [| |b|x|s|xs|props]; try reflexivity.
  - by destruct b.
  - by destruct x.
  - by destruct s.
Qed.

(** A rate-limited request is answered 429 and nothing else is
    done. *)
Lemma handler_rate_limited ctx now req w st' :
  isRateLimited (clientIp req) now (rateLimitStore w) = (true, st') →
  handler ctx now req w
  = (Ok (respond 429 "Too many requests. Try again later."),
     {| rateLimitStore := st'; trace := trace w |}).
Proof.
  intros H. unfold handler, try_catch, bindM, rate_limit. by rewrite H.
Qed.

(** A request that passes the limiter with the honeypot filled in is
    answered at once. *)
Lemma handler_honeypot ctx now req w st' :
  isRateLimited (clientIp req) now (rateLimitStore w) = (false, st') →
  ToBoolean (body_prop req "honeypot") = true →
  handler ctx now req w
  = (Ok (respond 200 "Thank you for your message."),
     {| rateLimitStore := st'; trace := trace w |}).
Proof.
  intros H Hhp. unfold handler, try_catch, bindM, rate_limit, lift.
  rewrite H, get_body, Hhp. reflexivity.
Qed.

(** A request that is admitted and stored: the answer depends on the
    mail service only through what its [catch] makes of a failure. *)
Lemma handler_stored ctx now req w st' v d sch items :
  isRateLimited (clientIp req) now (rateLimitStore w) = (false, st') →
  ToBoolean (body_prop req "honeypot") = false →
  validateFormData (body_or_empty req) = Ok v →
  valid v = true →
  sanitize (body_or_empty req) (clientIp req) = Ok d →
  getSchema ctx = Ok sch →
  new_ItemsService ctx "contact_submissions" sch = Ok items →
  createOne items d = Ok tt →
  handler ctx now req w
  = match new_MailService ctx sch with
    | Throw e => mail_caught w st' [CreateOne d] e
    | Ok m =>
        match send m (notification ctx d) with
        | Ok _ =>
            (Ok (respond 200 "Message received successfully."),
             extend w st' [CreateOne d; Send (notification ctx d)])
        | Throw e =>
            mail_caught w st' [CreateOne d; Send (notification ctx d)] e
        end
    end.
Proof.
  intros H Hhp Hv Hvalid Hd Hsch Hitems Hcreate.
  unfold handler, try_catch, bindM, rate_limit, lift, emit, ret,
    console_error, bindM, lift, emit, mail_caught, caught, extend.
  rewrite H, get_body, Hhp, Hv, Hvalid, Hd, Hsch, Hitems.
  cbn [negb rateLimitStore trace]. rewrite Hcreate.
  assert (Hread : ∀ e e', read_message e = Throw e' → e' = TypeError).
  { intros [| |[]] e'; cbn; congruence. }
  destruct (new_MailService ctx sch) as [m|e]; cbn [rateLimitStore trace].
  - destruct (send m (notification ctx d)) as [[]|e];
      cbn [rateLimitStore trace].
    + by rewrite <- !app_assoc.
    + destruct (read_message e) as [[]|e'] eqn:He;
        cbn [rateLimitStore trace].
      * by rewrite <- !app_assoc.
      * rewrite (Hread _ _ He). cbn. by rewrite <- !app_assoc.
  - destruct (read_message e) as [[]|e'] eqn:He; cbn [rateLimitStore trace].
    + by rewrite <- !app_assoc.
    + rewrite (Hread _ _ He). cbn. by rewrite <- !app_assoc.
Qed.

(** C1, on the code: the same submission, once as it is and once with
    the honeypot filled in, from a client with its whole quota left.
    Both are answered 200 and the trapped one is not stored, but the
    two bodies differ: ['Message received successfully.'] for the
    accepted one, ['Thank you for your message.'] for the trapped
    one. *)
Theorem honeypot_body_is_not_the_accepted_body :
  let accepted :=
    handler working 0 (request_with (object submission)) world0 in
  let trapped :=
    handler working 0
      (request_with (object (("honeypot", Str (js "x")) :: submission)))
      world0 in
  accepted.1 = Ok (respond 200 "Message received successfully.")
  ∧ trapped.1 = Ok (respond 200 "Thank you for your message.")
  ∧ trapped.1 ≠ accepted.1
  ∧ trace trapped.2 = [].
Proof.
  cbv zeta.
  assert (Ha : (handler working 0 (request_with (object submission))
                  world0).1
               = Ok (respond 200 "Message received successfully."))
    by (by vm_compute).
  assert (Ht : (handler working 0
                  (request_with
                     (object (("honeypot", Str (js "x")) :: submission)))
                  world0).1
               = Ok (respond 200 "Thank you for your message."))
    by (by vm_compute).
  split; [exact Ha |]. split; [exact Ht |]. split.
  - rewrite Ha, Ht. intros H. discriminate H.
  - by vm_compute.
Qed.

(** A submission whose honeypot is truthy is answered, whatever its
    other fields and whatever the collaborators would do, with status
    200 when the limiter admits it, and with 429 when it does not; in
    both cases nothing is added to the trace: [createOne] is not
    invoked, nor [send]. *)
Theorem honeypot_status_and_no_storage ctx now req w :
  ToBoolean (body_prop req "honeypot") = true →
  let '(limited, st') :=
    isRateLimited (clientIp req) now (rateLimitStore w) in
  ∃ r,
    handler ctx now req w
    = (Ok r, {| rateLimitStore := st'; trace := trace w |})
    ∧ status r = (if limited then 429 else 200).
Proof.
  intros Hhp.
  destruct (isRateLimited (clientIp req) now (rateLimitStore w))
    as [[|] st'] eqn:H.
  - eexists. split; [by apply handler_rate_limited | done].
  - eexists. split; [by apply handler_honeypot | done].
Qed.

Lemma honeypot_status_and_no_storage_witness :
  let req :=
    request_with (object [("honeypot", Str (js "x"));
                          ("name", Str (js "<script>"))]) in
  let '(limited, st') :=
    isRateLimited (clientIp req) 0 (rateLimitStore world0) in
  ∃ r,
    handler working 0 req world0
    = (Ok r, {| rateLimitStore := st'; trace := trace world0 |})
    ∧ status r = (if limited then 429 else 200).
Proof.
  apply (honeypot_status_and_no_storage working 0
           (request_with (object [("honeypot", Str (js "x"));
                                  ("name", Str (js "<script>"))]))
           world0).
  reflexivity.
Defined.

(** C8, on the code: a valid submission is stored and the mail
    service rejects with [undefined].  The inner [catch] throws on
    [mailErr.message], the outer [catch] logs that [TypeError], and
    the client gets 500 although the submission is stored. *)
Theorem mail_rejecting_with_undefined_is_answered_500 :
  let run :=
    handler mail_rejects_undefined 0 (request_with (object submission))
      world0 in
  run.1 = Ok (respond 500 "Internal server error.")
  ∧ match trace run.2 with
    | [CreateOne _; Send _; ConsoleError prefix err] =>
        prefix = "Contact form error:" ∧ err = TypeError
    | _ => False
    end.
Proof. vm_compute. repeat split. Qed.

(** When a submission has been admitted and stored and the mail
    service fails with [e], an [Error] object or any other value
    whose [message] can be read, the client still gets the 200 of
    success; the failure is written to the log, after the storage
    call, and that log line is the last thing the handler does. *)
Theorem mail_failure_is_swallowed ctx now req w st' v d sch items e :
  isRateLimited (clientIp req) now (rateLimitStore w) = (false, st') →
  ToBoolean (body_prop req "honeypot") = false →
  validateFormData (body_or_empty req) = Ok v →
  valid v = true →
  sanitize (body_or_empty req) (clientIp req) = Ok d →
  getSchema ctx = Ok sch →
  new_ItemsService ctx "contact_submissions" sch = Ok items →
  createOne items d = Ok tt →
  mail_fails ctx sch d e →
  read_message e = Ok tt →
  ∃ sent,
    handler ctx now req w
    = (Ok (respond 200 "Message received successfully."),
       {| rateLimitStore := st';
          trace :=
            trace w
            ++ CreateOne d
               :: sent ++ [ConsoleError "Email notification failed:" e] |})
    ∧ (sent = [] ∨ sent = [Send (notification ctx d)]).
Proof.
  intros H Hhp Hv Hvalid Hd Hsch Hitems Hcreate Hmail Hread.
  rewrite (handler_stored _ _ _ _ _ _ _ _ _ H Hhp Hv Hvalid Hd Hsch
             Hitems Hcreate).
  unfold mail_caught, extend.
  destruct Hmail as [Hnew | (m & Hnew & Hsend)].
  - exists []. rewrite Hnew, Hread. split; [| by left]. done.
  - exists [Send (notification ctx d)]. rewrite Hnew, Hsend, Hread.
    split; [| by right]. done.
Qed.

Lemma mail_failure_is_swallowed_witness :
  ∃ d sent,
    handler mail_down 0 (request_with (object submission)) world0
    = (Ok (respond 200 "Message received successfully."),
       {| rateLimitStore :=
            (isRateLimited (js "203.0.113.7") 0 rateLimitStore0).2;
          trace :=
            trace world0
            ++ CreateOne d
               :: sent
                  ++ [ConsoleError "Email notification failed:"
                        (Error (js "SMTP timeout"))] |}).
Proof.
  edestruct (mail_failure_is_swallowed mail_down 0
               (request_with (object submission)) world0)
    as (sent & Hrun & _).
  - reflexivity.
  - reflexivity.
  - reflexivity.
  - reflexivity.
  - reflexivity.
  - reflexivity.
  - reflexivity.
  - reflexivity.
  - right. eexists. split; reflexivity.
  - reflexivity.
  - eexists. exists sent. exact Hrun.
Defined.

(** When [createOne] rejects with [undefined] the outer [catch]
    throws on [err.message]: the handler throws, no response is sent,
    and nothing is logged. *)
Example storage_rejecting_with_undefined_sends_no_response :
  let run :=
    handler storage_rejects_undefined 0 (request_with (object submission))
      world0 in
  run.1 = Throw TypeError
  ∧ match trace run.2 with
    | [CreateOne _] => True
    | _ => False
    end.
Proof. vm_compute. repeat split. Qed.

(** A phone sent as a number passes the validator, which looks at the
    phone only when it is a string; [body.phone.trim()] then throws
    and the client gets 500. *)
Lemma numeric_phone_is_internal_error :
  (handler working 0
     (request_with
        (object [("name", Str (js "Marco Rossi"));
                 ("email", Str (js "marco@example.com"));
                 ("phone", Num (SpecFloat.S754_finite false 7 0));
                 ("subject", Str (js "info"));
                 ("message", Str (js "Test message content here."))]))
     world0).1
  = Ok (respond 500 "Internal server error.").
Proof. by vm_compute. Qed.

End EndpointFacts.

(** * The tests of the repository

    The cases of [tests/contact-validation.test.js], on the embedding. *)

Section RepositoryTests.

Example accepts_valid_complete_form : validity submission = Some true.
Proof. reflexivity. Qed.

Example accepts_form_without_phone :
  validity [("name", Str (js "Anna Schmidt"));
            ("email", Str (js "anna@example.de"));
            ("subject", Str (js "visit"));
            ("message", Str (js "I would like to schedule a visit."))]
  = Some true.
Proof. reflexivity. Qed.

(** ['François Müller-O\'Brien']: ç is U+00E7 and ü is U+00FC. *)
Example accepts_names_with_accents :
  validity [("name", Str (js "Fran" ++ [231%N] ++ js "ois M" ++ [252%N]
                          ++ js "ller-O'Brien"));
            ("email", Str (js "francois@example.fr"));
            ("subject", Str (js "partnership"));
            ("message", Str (js "We are interested in partnership."))]
  = Some true.
Proof. reflexivity. Qed.

Example rejects_script_tags_in_name :
  ∃ r, validateFormData (object (with_name (js "<script>alert(1)</script>")))
       = Ok r
       ∧ valid r = false ∧ is_Some (errors r !! "name").
Proof. eexists. split; [reflexivity |]. split; [reflexivity |]. by eexists. Qed.

Example rejects_img_onerror_in_name :
  validity (with_name (js "<img onerror=alert(1)>")) = Some false.
Proof. reflexivity. Qed.

Example rejects_event_handlers_in_email :
  validity (with_email ([34%N] ++ js "onmouseover=alert(1)" ++ [34%N]
                        ++ js "@evil.com"))
  = Some false.
Proof. reflexivity. Qed.

Example rejects_SQL_in_name :
  validity (with_name (js "'; DROP TABLE users;--")) = Some false.
Proof. reflexivity. Qed.

Example rejects_UNION_SELECT_in_email :
  validity (with_email (js "' UNION SELECT * FROM users--@evil.com"))
  = Some false.
Proof. reflexivity. Qed.

Example rejects_SQL_in_subject :
  validity (with_subject (js "' OR '1'='1")) = Some false.
Proof. reflexivity. Qed.

Example accepts_each_allowed_subject :
  map (λ x, validity (with_subject x)) ALLOWED_SUBJECTS
  = [Some true; Some true; Some true; Some true].
Proof. reflexivity. Qed.

Example rejects_non_whitelisted_subject :
  validity (with_subject (js "hacking")) = Some false.
Proof. reflexivity. Qed.

Example rejects_name_over_100_chars :
  validity (with_name (repeat 65%N 101)) = Some false.
Proof. by vm_compute. Qed.

Example rejects_message_under_10_chars :
  validity (with_message (js "Short")) = Some false.
Proof. reflexivity. Qed.

Example rejects_message_over_2000_chars :
  validity (with_message (repeat 65%N 2001)) = Some false.
Proof. by vm_compute. Qed.

Example removes_script_tags :
  stripHTML (Str (js "<script>alert(1)</script>text")) = js "alert(1)text".
Proof. reflexivity. Qed.

Example removes_nested_tags :
  stripHTML (Str (js "<div><b>text</b></div>")) = js "text".
Proof. reflexivity. Qed.

Example handles_non_string_input :
  stripHTML Null = [] ∧ stripHTML Undefined = []
  ∧ stripHTML (Num (SpecFloat.S754_finite false 123 0)) = [].
Proof. done. Qed.

(** The first scenario of the specification: admitted, stored once,
    with the values it was sent. *)
Example scenario_accepted :
  let run := handler working 0 (request_with (object submission)) world0 in
  run.1 = Ok (respond 200 "Message received successfully.")
  ∧ match trace run.2 with
    | [CreateOne d; Send m] =>
        sd_name d = js "Marco Rossi"
        ∧ sd_email d = js "marco@example.com"
        ∧ sd_phone d = js "+39 06 1234567"
        ∧ sd_subject d = Str (js "info")
        ∧ sd_message d = js "I want information about cohousing."
        ∧ ip_address d = js "203.0.113.7"
    | _ => False
    end.
Proof. vm_compute. repeat split. Qed.

(** The second scenario: rejected by the validator on [name], nothing
    stored. *)
Example scenario_rejected :
  let run :=
    handler working 0
      (request_with
         (object [("name", Str (js "<img onerror=alert(1)>"));
                  ("email", Str (js "test@example.com"));
                  ("subject", Str (js "info"));
                  ("message", Str (js "Test message content here."))]))
      world0 in
  run.1
  = Ok {| status := 400;
          message := "Validation failed";
          response_errors := Some {[ "name" := "Invalid name" ]} |}
  ∧ trace run.2 = [].
Proof. vm_compute. repeat split. Qed.

End RepositoryTests.

(** * Every path of the handler *)

Section HandlerPaths.

Implicit Types (ctx : Context) (req : Request) (w : World) (now : Z).

Lemma body_or_empty_not_nullish req :
  body_or_empty req ≠ Undefined ∧ body_or_empty req ≠ Null.
Proof.
  unfold body_or_empty. destruct (body req) as [| |[|]|x|[|c s]|xs|props];
    simpl; try done.
  by destruct x.
Qed.

Lemma validateFormData_returns data :
  data ≠ Undefined → data ≠ Null → ∃ v, validateFormData data = Ok v.
Proof.
  intros H1 H2.
  assert (Hobj : ∀ props, ∃ v, validateFormData (Obj props) = Ok v).
  { intros props. destruct (validateFormData_Obj props) as (bp & _ & Heq).
    rewrite Heq. by eexists. }
  destruct data as [| |b|x|s|xs|props]; try done;
    first [ apply Hobj
          | rewrite validateFormData_primitive by done; apply Hobj ].
Qed.

(** Reading [err.message] throws only a [TypeError], and only when
    the caught value is [undefined] or [null]. *)
Lemma read_message_throw e e' :
  read_message e = Throw e' →
  e' = TypeError ∧ (e = Thrown Undefined ∨ e = Thrown Null).
Proof.
  destruct e as [| m |v]; try discriminate.
  destruct v; cbn; try discriminate; intros [= <-]; auto.
Qed.

(** The handler, path by path. *)
Lemma handler_paths ctx now req w :
  ∃ v, validateFormData (body_or_empty req) = Ok v
  ∧ handler ctx now req w
    = let '(limited, st) :=
        isRateLimited (clientIp req) now (rateLimitStore w) in
      if limited then
        (Ok (respond 429 "Too many requests. Try again later."),
         extend w st [])
      else if ToBoolean (body_prop req "honeypot") then
        (Ok (respond 200 "Thank you for your message."), extend w st [])
      else if negb (valid v) then
        (Ok {| status := 400; message := "Validation failed";
               response_errors := Some (errors v) |},
         extend w st [])
      else
        match sanitize (body_or_empty req) (clientIp req) with
        | Throw e => caught w st [] e
        | Ok d =>
            match getSchema ctx with
            | Throw e => caught w st [] e
            | Ok sch =>
                match new_ItemsService ctx "contact_submissions" sch with
                | Throw e => caught w st [] e
                | Ok items =>
                    match createOne items d with
                    | Throw e => caught w st [CreateOne d] e
                    | Ok _ =>
                        match new_MailService ctx sch with
                        | Throw e => mail_caught w st [CreateOne d] e
                        | Ok ms =>
                            match send ms (notification ctx d) with
                            | Ok _ =>
                                (Ok (respond 200
                                       "Message received successfully."),
                                 extend w st
                                   [CreateOne d; Send (notification ctx d)])
                            | Throw e =>
                                mail_caught w st
                                  [CreateOne d; Send (notification ctx d)] e
                            end
                        end
                    end
                end
            end
        end.
Proof.
  destruct (body_or_empty_not_nullish req) as [Hu Hn].
  destruct (validateFormData_returns _ Hu Hn) as [v Hv].
  exists v. split; [exact Hv |].
  destruct (isRateLimited (clientIp req) now (rateLimitStore w))
    as [[|] st] eqn:Hlim.
  { rewrite (handler_rate_limited _ _ _ _ _ Hlim). unfold extend.
    by rewrite app_nil_r. }
  destruct (ToBoolean (body_prop req "honeypot")) eqn:Hhp.
  { rewrite (handler_honeypot _ _ _ _ _ Hlim Hhp). unfold extend.
    by rewrite app_nil_r. }
  destruct (valid v) eqn:Hvalid; cbn [negb].
  2: { unfold handler, try_catch, bindM, rate_limit, lift, ret, extend.
       rewrite Hlim, get_body, Hhp, Hv, Hvalid. cbn [negb].
       by rewrite app_nil_r. }
  destruct (sanitize (body_or_empty req) (clientIp req)) as [d|e] eqn:Hsan.
  2: { unfold handler, try_catch, bindM, rate_limit, lift, ret, extend,
         caught, console_error, bindM, lift, emit.
       rewrite Hlim, get_body, Hhp, Hv, Hvalid, Hsan. cbn [negb].
       destruct (read_message e) as [[]|e']; unfold extend;
         cbn [rateLimitStore trace app]; by rewrite ?app_nil_r. }
  destruct (getSchema ctx) as [sch|e] eqn:Hsch.
  2: { unfold handler, try_catch, bindM, rate_limit, lift, ret, extend,
         caught, console_error, bindM, lift, emit.
       rewrite Hlim, get_body, Hhp, Hv, Hvalid, Hsan, Hsch. cbn [negb].
       destruct (read_message e) as [[]|e']; unfold extend;
         cbn [rateLimitStore trace app]; by rewrite ?app_nil_r. }
  destruct (new_ItemsService ctx "contact_submissions" sch)
    as [items|e] eqn:Hitems.
  2: { unfold handler, try_catch, bindM, rate_limit, lift, ret, extend,
         caught, console_error, bindM, lift, emit.
       rewrite Hlim, get_body, Hhp, Hv, Hvalid, Hsan, Hsch, Hitems.
       cbn [negb].
       destruct (read_message e) as [[]|e']; unfold extend;
         cbn [rateLimitStore trace app]; by rewrite ?app_nil_r. }
  destruct (createOne items d) as [[]|e] eqn:Hcreate.
  2: { unfold handler, try_catch, bindM, rate_limit, lift, ret, extend,
         caught, console_error, bindM, lift, emit.
       rewrite Hlim, get_body, Hhp, Hv, Hvalid, Hsan, Hsch, Hitems.
       cbn [negb rateLimitStore trace]. rewrite Hcreate.
       destruct (read_message e) as [[]|e']; unfold extend;
         cbn [rateLimitStore trace app]; by rewrite <- ?app_assoc. }
  apply (handler_stored _ _ _ _ _ _ _ _ _ Hlim Hhp Hv Hvalid Hsan Hsch
           Hitems Hcreate).
Qed.

End HandlerPaths.

(** * What reaches storage *)

Section StoredData.

Implicit Types (props : gmap jsstring value) (s : jsstring) (c : N).

Lemma Removed_length s out : Removed s out → (length out ≤ length s)%nat.
Proof.
  induction 1 as [|c s out _ IH|t s out _ _ IH]; simpl.
  - done.
  - lia.
  - rewrite length_app. lia.
Qed.

(** A string without [<] goes through the sanitizer unchanged. *)
Lemma strip_tags_no_LT s : LT ∉ s → strip_tags s = s.
Proof.
  intros H. apply strip_tags_id. intros pre post ->.
  exfalso. apply H. apply elem_of_app. right. left.
Qed.

Lemma class_no_LT (cls : N → bool) s :
  cls LT = false → Forall (λ c, cls c = true) s → LT ∉ s.
Proof.
  intros Hcls Hs Hin. rewrite Forall_forall in Hs.
  specialize (Hs _ Hin). congruence.
Qed.

Lemma toLowerCase_no_upper s : no_upper (toLowerCase s).
Proof.
  unfold no_upper, toLowerCase. apply Forall_forall. intros c Hc.
  apply list_elem_of_fmap in Hc as (c0 & -> & _).
  unfold upper, range.
  destruct (N.leb_spec 65 c0), (N.leb_spec c0 90); simpl;
    rewrite ?andb_false_iff, ?N.leb_gt; lia.
Qed.

Lemma lang_Rep_map (f : N → N) cls lo hi s :
  (∀ c, cls c = true → cls (f c) = true) →
  lang (Rep cls lo hi) s → lang (Rep cls lo hi) (map f s).
Proof.
  intros Hf (H1 & H2 & H3). simpl. rewrite length_map.
  repeat split; [done | done |].
  apply Forall_forall. intros c Hc.
  apply list_elem_of_fmap in Hc as (c0 & -> & Hc0).
  apply Hf. rewrite Forall_forall in H3. by apply H3.
Qed.

(** Lower-casing keeps an email inside the email pattern. *)
Lemma toLowerCase_email s :
  test ALLOWED_PATTERNS.email s = true →
  test ALLOWED_PATTERNS.email (toLowerCase s) = true.
Proof.
  rewrite !test_lang. unfold ALLOWED_PATTERNS.email, toLowerCase.
  set (f := λ c : N, if (65 <=? c)%N && (c <=? 90)%N then (c + 32)%N else c).
  assert (Hal : ∀ c, alpha c = true → alpha (f c) = true).
  { intros c. unfold f, alpha, lower, upper, range.
    destruct (N.leb_spec 65 c), (N.leb_spec c 90); simpl;
      rewrite !orb_true_iff, !andb_true_iff, !N.leb_le; lia. }
  assert (Hother : ∀ c, alpha c = false → f c = c).
  { intros c. unfold f, alpha, lower, upper, range.
    rewrite orb_false_iff. intros [_ ->]. done. }
  assert (Hcls : ∀ (g : N → bool) c,
             alpha c || g c = true → alpha (f c) || g (f c) = true).
  { intros g c. destruct (alpha c) eqn:Hc; simpl.
    - intros _. by rewrite (Hal _ Hc).
    - rewrite (Hother _ Hc), Hc. done. }
  intros (s1 & r1 & -> & H1
          & (s2 & r2 & -> & H2
             & (s3 & r3 & -> & H3
                & (s4 & s5 & -> & H4 & H5)))).
  apply lang_Chr in H2 as ->. apply lang_Chr in H4 as ->.
  rewrite !map_app. cbn [map].
  change (f 64%N) with 64%N. change (f 46%N) with 46%N.
  exists (map f s1), ([64%N] ++ map f s3 ++ [46%N] ++ map f s5).
  split; [done |]. split.
  { apply lang_Rep_map; [| done]. intros c.
    unfold ALLOWED_PATTERNS.local_cls. rewrite <- !orb_assoc.
    apply (Hcls (λ c, digit c
                      || ((c =? 46) || ((c =? 95) || ((c =? 37)
                      || ((c =? 43) || (c =? 45))))))%N). }
  exists [64%N], (map f s3 ++ [46%N] ++ map f s5).
  split; [done |]. split; [by apply lang_Chr |].
  exists (map f s3), ([46%N] ++ map f s5).
  split; [done |]. split.
  { apply lang_Rep_map; [| done]. intros c.
    unfold ALLOWED_PATTERNS.domain_cls. rewrite <- !orb_assoc.
    apply (Hcls (λ c, digit c || ((c =? 46) || (c =? 45)))%N). }
  exists [46%N], (map f s5).
  split; [done |]. split; [by apply lang_Chr |].
  apply lang_Rep_map; [exact Hal | done].
Qed.

(** A submission the validator accepts is an object whose fields all
    pass. *)
Lemma valid_inv data v :
  validateFormData data = Ok v → valid v = true →
  ∃ props,
    data = Obj props
    ∧ Contract.name_ok (field props "name") = true
    ∧ Contract.email_ok (field props "email") = true
    ∧ phone_fails (Obj props) = Ok false
    ∧ Contract.subject_ok (field props "subject") = true
    ∧ Contract.message_ok (field props "message") = true.
Proof.
  intros Hv Hvalid.
  assert (Hprim : validateFormData (Obj ∅) = Ok v → False).
  { intros H. vm_compute in H. injection H as <-. discriminate Hvalid. }
  destruct data as [| |b|x|s|xs|props].
  1, 2: by vm_compute in Hv.
  1, 2, 3, 4:
    rewrite validateFormData_primitive in Hv by done; by apply Hprim in Hv.
  exists props. split; [done |].
  destruct (validateFormData_Obj props) as (bp & Hbp & Heq).
  rewrite Hv in Heq. injection Heq as ->. rewrite Hbp.
  cbn [valid] in Hvalid. apply Object_keys_empty in Hvalid.
  destruct (Contract.name_ok _), (Contract.email_ok _), bp,
    (Contract.subject_ok _), (Contract.message_ok _);
    solve [ done | by apply insert_non_empty in Hvalid ].
Qed.

Lemma name_ok_inv v :
  Contract.name_ok v = true →
  ∃ n, v = Str n ∧ test ALLOWED_PATTERNS.name (trim n) = true.
Proof.
  destruct v as [| |b|x|n|xs|ps]; try discriminate. intros H.
  exists n. split; [done |]. unfold ALLOWED_PATTERNS.name.
  by rewrite test_Rep_bool.
Qed.

Lemma email_ok_inv v :
  Contract.email_ok v = true →
  ∃ e, v = Str e ∧ test ALLOWED_PATTERNS.email (trim e) = true.
Proof. destruct v; try discriminate. intros H. by eexists. Qed.

Lemma subject_ok_inv v :
  Contract.subject_ok v = true → ∃ s, v = Str s ∧ s ∈ ALLOWED_SUBJECTS.
Proof.
  destruct v as [| |b|x|s|xs|ps]; try discriminate. intros H.
  exists s. split; [done |]. by apply bool_decide_eq_true in H.
Qed.

Lemma message_ok_inv v :
  Contract.message_ok v = true →
  ∃ m, v = Str m ∧ (length (trim m) ≤ 2000)%nat.
Proof.
  destruct v as [| |b|x|m|xs|ps]; try discriminate. intros H.
  exists m. split; [done |]. unfold between in H.
  apply andb_true_iff in H as [_ H]. by apply Nat.leb_le in H.
Qed.

Lemma test_name_strip s :
  test ALLOWED_PATTERNS.name s = true → strip_tags s = s.
Proof.
  intros H. apply test_name in H as [_ H].
  apply strip_tags_no_LT. by eapply class_no_LT; [| exact H].
Qed.

Lemma test_phone_strip s :
  test ALLOWED_PATTERNS.phone s = true → strip_tags s = s.
Proof.
  intros H. apply test_phone in H as [_ H].
  apply strip_tags_no_LT. by eapply class_no_LT; [| exact H].
Qed.

(** The phone the handler stores, for a body the validator accepted. *)
Lemma sanitized_phone props :
  phone_fails (Obj props) = Ok false →
  match field props "phone" with
  | Str p =>
      ∃ out,
        (if ToBoolean (Str p) then Ok (stripHTML (Str (trim p))) else Ok [])
        = Ok out
        ∧ test ALLOWED_PATTERNS.phone out = true
  | _ => True
  end.
Proof.
  rewrite phone_fails_Obj. intros [= H].
  destruct (field props "phone") as [| |b|x|p|xs|ps]; try done.
  destruct p as [|c p]; [by exists [] |].
  exists (strip_tags (trim (c :: p))). split; [done |].
  apply negb_false_iff in H. unfold Contract.phone_ok, is_blank in H.
  destruct (trim (c :: p)) as [|c' t] eqn:Ht; [done |].
  simpl in H. by rewrite test_phone_strip.
Qed.

(** What [sanitize] returns on an accepted body. *)
Lemma sanitize_accepted props ip :
  Contract.name_ok (field props "name") = true →
  Contract.email_ok (field props "email") = true →
  phone_fails (Obj props) = Ok false →
  Contract.subject_ok (field props "subject") = true →
  Contract.message_ok (field props "message") = true →
  match field props "phone" with
  | Str _ =>
      ∃ d, sanitize (Obj props) ip = Ok d ∧ clean d ∧ ip_address d = ip
  | v =>
      if ToBoolean v then sanitize (Obj props) ip = Throw TypeError
      else ∃ d, sanitize (Obj props) ip = Ok d ∧ clean d ∧ ip_address d = ip
  end.
Proof.
  intros Hn He Hp Hs Hm.
  apply name_ok_inv in Hn as (n & Hn & Hnt).
  apply email_ok_inv in He as (e & He & Het).
  apply subject_ok_inv in Hs as (sb & Hs & Hsb).
  apply message_ok_inv in Hm as (m & Hm & Hml).
  pose proof (sanitized_phone props Hp) as Hph.
  unfold sanitize. rewrite !get_Obj, Hn, He, Hs, Hm.
  cbn [bind call_trim].
  assert (Hclean : ∀ p,
    test ALLOWED_PATTERNS.phone p = true →
    clean {| sd_name := stripHTML (Str (trim n));
             sd_email := toLowerCase (trim e);
             sd_phone := p;
             sd_subject := Str sb;
             sd_message := stripHTML (Str (trim m));
             ip_address := ip;
             sd_status := "new" |}).
  { intros p Hpt. constructor; cbn.
    - unfold stripHTML; cbn. by rewrite test_name_strip.
    - by apply toLowerCase_email.
    - apply toLowerCase_no_upper.
    - done.
    - by exists sb.
    - unfold stripHTML; cbn. apply strip_tags_tag_free.
    - unfold stripHTML; cbn.
      etrans; [apply Removed_length, strip_tags_Removed | done].
    - done. }
  destruct (field props "phone") as [| |b|x|p|xs|ps]; cbn [ToBoolean].
  - eexists. split; [reflexivity |]. split; [by apply Hclean | done].
  - eexists. split; [reflexivity |]. split; [by apply Hclean | done].
  - destruct b; [done |].
    eexists. split; [reflexivity |]. split; [by apply Hclean | done].
  - destruct x; try done;
      (eexists; split; [reflexivity |]; split; [by apply Hclean | done]).
  - destruct Hph as (out & Hout & Hpt).
    cbn [bind call_trim].
    destruct p as [|c p]; cbn [ToBoolean] in *.
    + injection Hout as <-.
      eexists. split; [reflexivity |]. split; [by apply Hclean | done].
    + injection Hout as <-.
      eexists. split; [reflexivity |]. split; [by apply Hclean | done].
  - done.
  - done.
Qed.

(** On an accepted body [sanitize] returns clean data or throws. *)
Lemma sanitize_clean props ip d :
  Contract.name_ok (field props "name") = true →
  Contract.email_ok (field props "email") = true →
  phone_fails (Obj props) = Ok false →
  Contract.subject_ok (field props "subject") = true →
  Contract.message_ok (field props "message") = true →
  sanitize (Obj props) ip = Ok d →
  clean d ∧ ip_address d = ip.
Proof.
  intros Hn He Hp Hs Hm Hd.
  pose proof (sanitize_accepted props ip Hn He Hp Hs Hm) as H.
  destruct (field props "phone") as [| |b|x|p|xs|ps]; cbn [ToBoolean] in H;
    try (destruct H as (d' & Hd' & Hc); rewrite Hd in Hd';
         by injection Hd' as <-);
    try (rewrite Hd in H; discriminate H).
  - destruct b; [rewrite Hd in H; discriminate H |].
    destruct H as (d' & Hd' & Hc); rewrite Hd in Hd'; by injection Hd' as <-.
  - destruct x;
      first [ rewrite Hd in H; discriminate H
            | destruct H as (d' & Hd' & Hc); rewrite Hd in Hd';
              by injection Hd' as <- ].
Qed.

Lemma stripHTML_Str s : stripHTML (Str s) = strip_tags s.
Proof. reflexivity. Qed.

Lemma phone_ok_strip p :
  Contract.phone_ok (Str p) = true → strip_tags (trim p) = trim p.
Proof.
  unfold Contract.phone_ok, is_blank. intros H.
  destruct (trim p) as [|c t] eqn:Ht; [done |].
  rewrite <- Ht in *. by apply test_phone_strip.
Qed.

(** What [sanitize] makes of an accepted body whose phone is left out
    or is a string. *)
Lemma sanitize_of_accepted props ip v :
  validateFormData (Obj props) = Ok v →
  valid v = true →
  Contract.phone_typed (field props "phone") →
  ∃ n e sb m,
    field props "name" = Str n
    ∧ field props "email" = Str e
    ∧ field props "subject" = Str sb
    ∧ field props "message" = Str m
    ∧ sanitize (Obj props) ip
      = Ok {| sd_name := trim n;
              sd_email := toLowerCase (trim e);
              sd_phone := match field props "phone" with
                          | Str p => trim p
                          | _ => []
                          end;
              sd_subject := Str sb;
              sd_message := strip_tags (trim m);
              ip_address := ip;
              sd_status := "new" |}.
Proof.
  intros Hv Hvalid Hty.
  destruct (valid_inv _ _ Hv Hvalid)
    as (props' & [= <-] & Hn & He & Hp & Hs & Hm).
  apply name_ok_inv in Hn as (n & Hn & Hnt).
  apply email_ok_inv in He as (e & He & Het).
  apply subject_ok_inv in Hs as (sb & Hs & Hsb).
  apply message_ok_inv in Hm as (m & Hm & Hml).
  exists n, e, sb, m. repeat (split; [done |]).
  rewrite phone_fails_Obj in Hp. injection Hp as Hp.
  unfold sanitize. rewrite !get_Obj, Hn, He, Hs, Hm.
  cbn [bind call_trim]. rewrite !stripHTML_Str, (test_name_strip _ Hnt).
  destruct Hty as [Hfalsy | [p Hp']].
  - rewrite Hfalsy. cbn [bind].
    destruct (field props "phone") as [| |b|x|p|xs|ps]; try done.
    by destruct p.
  - rewrite Hp' in Hp |- *. apply negb_false_iff in Hp.
    destruct p as [|c p]; [done |].
    cbn [ToBoolean bind call_trim]. rewrite stripHTML_Str.
    by rewrite (phone_ok_strip _ Hp).
Qed.

(** What [createOne] receives for an accepted submission whose phone
    is left out or is a string: the name and the phone trimmed, the
    email trimmed and in lower case, the subject as sent, the message
    trimmed and stripped of tags, the identity of the client and the
    status ["new"]. *)
Theorem accepted_submission_data ctx now req w props st v sch items :
  body req = Obj props →
  isRateLimited (clientIp req) now (rateLimitStore w) = (false, st) →
  ToBoolean (field props "honeypot") = false →
  validateFormData (Obj props) = Ok v →
  valid v = true →
  Contract.phone_typed (field props "phone") →
  getSchema ctx = Ok sch →
  new_ItemsService ctx "contact_submissions" sch = Ok items →
  ∃ n e sb m rest,
    field props "name" = Str n
    ∧ field props "email" = Str e
    ∧ field props "subject" = Str sb
    ∧ field props "message" = Str m
    ∧ trace (handler ctx now req w).2
      = trace w
        ++ CreateOne {| sd_name := trim n;
                        sd_email := toLowerCase (trim e);
                        sd_phone := match field props "phone" with
                                    | Str p => trim p
                                    | _ => []
                                    end;
                        sd_subject := Str sb;
                        sd_message := strip_tags (trim m);
                        ip_address := clientIp req;
                        sd_status := "new" |}
           :: rest.
Proof.
  intros Hbody Hlim Hhp Hv Hvalid Hty Hsch Hitems.
  destruct (sanitize_of_accepted props (clientIp req) v Hv Hvalid Hty)
    as (n & e & sb & m & Hn & He & Hs & Hm & Hd).
  exists n, e, sb, m.
  assert (Hb : body_or_empty req = Obj props).
  { unfold body_or_empty. by rewrite Hbody. }
  destruct (handler_paths ctx now req w) as (v0 & Hv0 & H).
  rewrite Hb in Hv0, H. rewrite Hv in Hv0. injection Hv0 as <-.
  unfold body_prop in H. rewrite Hb, get_Obj, Hlim, Hhp, Hvalid, Hd, Hsch,
    Hitems in H.
  cbn [negb] in H. rewrite H. unfold mail_caught, caught.
  repeat match goal with
         | |- context [match ?x with Ok _ => _ | Throw _ => _ end] =>
             destruct x
         end;
    unfold extend; cbn [snd trace app]; eexists; by repeat split.
Qed.

Lemma accepted_submission_data_witness :
  ∃ d rest,
    trace (handler working 0
             (request_with
                (object [("name", Str (js " Marco Rossi "));
                         ("email", Str (js "Marco@Example.COM"));
                         ("subject", Str (js "info"));
                         ("message",
                          Str (js "Hello <b>there</b>, friend"))]))
             world0).2
    = trace world0 ++ CreateOne d :: rest
    ∧ sd_message d = strip_tags (trim (js "Hello <b>there</b>, friend")).
Proof.
  edestruct (accepted_submission_data working 0
               (request_with
                  (object [("name", Str (js " Marco Rossi "));
                           ("email", Str (js "Marco@Example.COM"));
                           ("subject", Str (js "info"));
                           ("message",
                            Str (js "Hello <b>there</b>, friend"))]))
               world0)
    as (n & e & sb & m & rest & Hn & He & Hs & Hm & Htr).
  - reflexivity.
  - reflexivity.
  - reflexivity.
  - vm_compute. reflexivity.
  - reflexivity.
  - left. reflexivity.
  - reflexivity.
  - reflexivity.
  - eexists. exists rest. split; [exact Htr |]. cbn [sd_message].
    vm_compute in Hm. injection Hm as <-. reflexivity.
Defined.

(** A match of the pattern is taken out whole. *)
Lemma strip_tags_one_tag t : test tag_pattern t = true → strip_tags t = [].
Proof.
  intros H. apply test_tag_pattern in H as (m & -> & Hm).
  cbn [strip_tags]. change (LT =? LT)%N with true. cbv iota.
  assert (Hc : ∀ m, GT ∉ m → close_tag (m ++ [GT]) = Some []).
  { clear. induction m as [|c m IH]; intros Hm.
    - reflexivity.
    - apply not_elem_of_cons in Hm as [Hc Hm]. cbn [app close_tag].
      destruct (N.eqb_spec c GT); [done | by apply IH]. }
  by rewrite Hc.
Qed.

(** The length of the message is checked before the tags are taken
    out: a message that is one tag of 10 to 2000 characters is
    accepted and stored as the empty string. *)
Theorem one_tag_message_is_stored_empty props ip v m :
  validateFormData (Obj props) = Ok v →
  valid v = true →
  Contract.phone_typed (field props "phone") →
  field props "message" = Str m →
  test tag_pattern (trim m) = true →
  ∃ d, sanitize (Obj props) ip = Ok d ∧ sd_message d = [].
Proof.
  intros Hv Hvalid Hty Hm Htag.
  destruct (sanitize_of_accepted props ip v Hv Hvalid Hty)
    as (n & e & sb & m' & _ & _ & _ & Hm' & Hd).
  rewrite Hm in Hm'. injection Hm' as <-.
  eexists. split; [exact Hd |]. cbn [sd_message].
  by apply strip_tags_one_tag.
Qed.

Lemma one_tag_message_is_stored_empty_witness :
  ∃ d,
    sanitize (object [("name", Str (js "Marco Rossi"));
                      ("email", Str (js "marco@example.com"));
                      ("subject", Str (js "info"));
                      ("message", Str (js "<script src=x>"))])
      (js "203.0.113.7")
    = Ok d
    ∧ sd_message d = [].
Proof.
  eapply (one_tag_message_is_stored_empty
            (list_to_map
               [(js "name", Str (js "Marco Rossi"));
                (js "email", Str (js "marco@example.com"));
                (js "subject", Str (js "info"));
                (js "message", Str (js "<script src=x>"))])).
  - vm_compute. reflexivity.
  - reflexivity.
  - left. reflexivity.
  - reflexivity.
  - reflexivity.
Defined.

End StoredData.

(** * Guarantees of the handler *)

Section HandlerGuarantees.

Implicit Types (ctx : Context) (req : Request) (w : World) (now : Z).

(** Case analysis of a run along [handler_paths]: one case per path,
    with the reads of [err.message] in the [catch] blocks decided. *)
Ltac handler_cases ctx now req w v Hv H :=
  destruct (handler_paths ctx now req w) as (v & Hv & H);
  destruct (isRateLimited (clientIp req) now (rateLimitStore w))
    as [[|] st] eqn:Hlim;
  [| destruct (ToBoolean (body_prop req "honeypot")) eqn:Hhp;
     [| destruct (valid v) eqn:Hvalid; cbn [negb] in H;
        [ destruct (sanitize (body_or_empty req) (clientIp req))
            as [d|e] eqn:Hsan;
          [ destruct (getSchema ctx) as [sch|e] eqn:Hsch;
            [ destruct (new_ItemsService ctx "contact_submissions" sch)
                as [items|e] eqn:Hitems;
              [ destruct (createOne items d) as [[]|e] eqn:Hcreate;
                [ destruct (new_MailService ctx sch) as [ms|e] eqn:Hmail;
                  [ destruct (send ms (notification ctx d))
                      as [[]|e] eqn:Hsend
                  | ]
                | ]
              | ]
            | ]
          | ]
        | ] ] ];
  cbv zeta in H; unfold mail_caught, caught in H;
  try match type of H with
      | context [read_message ?err] =>
          destruct (read_message err) as [[]|e'] eqn:Hread;
          [| destruct (read_message_throw _ _ Hread) as [-> Hnull];
             cbn [read_message] in H ]
      end;
  cbn [app] in H.

Lemma body_prop_Obj req props (k : string) :
  body_or_empty req = Obj props → body_prop req k = field props k.
Proof. intros H. unfold body_prop. by rewrite H. Qed.

(** On an accepted body [sanitize] throws only a [TypeError], and only
    for a phone that is truthy and not a string. *)
Lemma sanitize_throws req v e :
  validateFormData (body_or_empty req) = Ok v → valid v = true →
  sanitize (body_or_empty req) (clientIp req) = Throw e →
  e = TypeError ∧ phone_mistyped (body_prop req "phone").
Proof.
  intros Hv Hvalid Hsan.
  destruct (valid_inv _ _ Hv Hvalid) as (props & Hb & Hn & He & Hp & Hs & Hm).
  rewrite (body_prop_Obj _ _ _ Hb). rewrite Hb in Hsan.
  pose proof (sanitize_accepted props (clientIp req) Hn He Hp Hs Hm) as H.
  unfold phone_mistyped.
  destruct (field props "phone") as [| |b|x|p|xs|ps]; cbn [ToBoolean] in *;
    try (destruct H as (d & Hd & _); rewrite Hsan in Hd; discriminate Hd);
    try (rewrite Hsan in H; injection H as ->; by repeat split).
  - destruct b.
    + rewrite Hsan in H. injection H as ->. by repeat split.
    + destruct H as (d & Hd & _). rewrite Hsan in Hd. discriminate Hd.
  - destruct x;
      first [ rewrite Hsan in H; injection H as ->; by repeat split
            | destruct H as (d & Hd & _); rewrite Hsan in Hd;
              discriminate Hd ].
Qed.


(** Every request is charged to its client before anything else is
    looked at: whatever the outcome, the store afterwards is the store
    [isRateLimited] leaves for the client identity. *)
Theorem handler_charges_every_request ctx now req w :
  rateLimitStore (handler ctx now req w).2
  = (isRateLimited (clientIp req) now (rateLimitStore w)).2.
Proof.
  handler_cases ctx now req w v Hv H; by rewrite H.
Qed.

(** A request answered 400 or 429 had no effect outside the limiter:
    nothing was stored, nothing sent, nothing logged. *)
Theorem rejection_has_no_effect ctx now req w r :
  (handler ctx now req w).1 = Ok r →
  status r = 400 ∨ status r = 429 →
  trace (handler ctx now req w).2 = trace w.
Proof.
  intros Hrun Hst.
  handler_cases ctx now req w v Hv H; rewrite H in Hrun |- *;
    cbn [fst] in Hrun; try discriminate Hrun;
    injection Hrun as <-; cbn [status respond] in Hst;
    try (destruct Hst; discriminate);
    cbn [snd extend trace]; apply app_nil_r.
Qed.

Lemma rejection_has_no_effect_witness :
  trace (handler working 0
           (request_with (object [("name", Str (js "<script>"))]))
           world0).2
  = trace world0.
Proof.
  eapply (rejection_has_no_effect working 0
            (request_with (object [("name", Str (js "<script>"))])) world0).
  - vm_compute. reflexivity.
  - left. reflexivity.
Defined.

(** [createOne] is invoked at most once per request, and only with
    clean data: name, email and phone inside their patterns, the email
    in lower case, the subject one of the allowed strings, the message
    free of tags and at most 2000 characters long, the address of the
    client and the status ["new"]. *)
Theorem stored_data_is_clean ctx now req w :
  ∃ evs,
    trace (handler ctx now req w).2 = trace w ++ evs
    ∧ (length (stored evs) ≤ 1)%nat
    ∧ Forall (λ d, clean d ∧ ip_address d = clientIp req) (stored evs).
Proof.
  handler_cases ctx now req w v Hv H; rewrite H; cbn [snd extend trace];
    eexists; (split; [reflexivity |]); cbn;
    (split; [lia |]); try by constructor.
  all: destruct (valid_inv _ _ Hv Hvalid)
         as (props & Hb & Hn & He & Hp & Hs & Hm);
       rewrite Hb in Hsan;
       constructor; [| constructor];
       exact (sanitize_clean props _ d Hn He Hp Hs Hm Hsan).
Qed.

(** [send] is invoked at most once per request, and only after
    [createOne] has returned for this request, with the data just
    stored; the mail directly follows the storage call in the trace.
    The client is then told that the message was received, also when
    [send] fails with a value whose [message] can be read; when
    [send] fails with [undefined] or [null] the client gets 500. *)
Theorem notification_only_after_storage ctx now req w :
  ∃ evs,
    trace (handler ctx now req w).2 = trace w ++ evs
    ∧ match sent evs with
      | [] => True
      | m :: more =>
          more = []
          ∧ ∃ d sch items ms rest,
              getSchema ctx = Ok sch
              ∧ new_ItemsService ctx "contact_submissions" sch = Ok items
              ∧ createOne items d = Ok tt
              ∧ new_MailService ctx sch = Ok ms
              ∧ m = notification ctx d
              ∧ evs = CreateOne d :: Send m :: rest
              ∧ match send ms m with
                | Ok _ =>
                    rest = []
                    ∧ (handler ctx now req w).1
                      = Ok (respond 200 "Message received successfully.")
                | Throw e =>
                    match read_message e with
                    | Ok _ =>
                        rest = [ConsoleError "Email notification failed:" e]
                        ∧ (handler ctx now req w).1
                          = Ok (respond 200
                                  "Message received successfully.")
                    | Throw _ =>
                        rest = [ConsoleError "Contact form error:" TypeError]
                        ∧ (handler ctx now req w).1
                          = Ok (respond 500 "Internal server error.")
                    end
                end
      end.
Proof.
  handler_cases ctx now req w v Hv H; rewrite H; cbn [fst snd extend trace];
    eexists; (split; [reflexivity |]); cbn; try done;
    (split; [done |]); exists d, sch, items, ms; eexists;
    repeat (split; [done |]); rewrite Hsend, ?Hread; done.
Qed.

(** The client is told that the message was received only when
    [createOne] has returned: the trace then holds the storage call,
    followed by what the notification did. *)
Theorem received_means_stored ctx now req w r :
  (handler ctx now req w).1 = Ok r →
  message r = "Message received successfully." →
  ∃ d sch items,
    getSchema ctx = Ok sch
    ∧ new_ItemsService ctx "contact_submissions" sch = Ok items
    ∧ createOne items d = Ok tt
    ∧ sanitize (body_or_empty req) (clientIp req) = Ok d
    ∧ trace (handler ctx now req w).2
      = trace w ++ CreateOne d :: mail_events ctx sch d.
Proof.
  intros Hrun Hmsg.
  handler_cases ctx now req w v Hv H; rewrite H in Hrun |- *;
    cbn [fst] in Hrun; try discriminate Hrun;
    injection Hrun as <-; cbn [message respond] in Hmsg;
    try discriminate Hmsg;
    exists d, sch, items; repeat (split; [done |]);
    unfold mail_events; rewrite Hmail, ?Hsend; done.
Qed.

Lemma received_means_stored_witness :
  ∃ d sch,
    trace (handler mail_down 0 (request_with (object submission)) world0).2
    = trace world0 ++ CreateOne d :: mail_events mail_down sch d.
Proof.
  edestruct (received_means_stored mail_down 0
               (request_with (object submission)) world0)
    as (d & sch & items & _ & _ & _ & _ & Htr).
  - vm_compute. reflexivity.
  - reflexivity.
  - exists d, sch. exact Htr.
Defined.

(** A 500 is always logged and has one of five causes: a phone that
    is truthy and not a string, on which [body.phone.trim()] throws; a
    failure of [getSchema]; a failure to build the items service; a
    failure of [createOne]; a mail service that throws [undefined] or
    [null], on which [mailErr.message] throws in the inner [catch].
    [createOne] has been invoked in the last two cases only, and
    [send] only when it is [send] that threw. *)
Theorem internal_error_causes ctx now req w r :
  (handler ctx now req w).1 = Ok r →
  status r = 500 →
  ∃ e pre,
    trace (handler ctx now req w).2
    = trace w ++ pre ++ [ConsoleError "Contact form error:" e]
    ∧ ((pre = [] ∧ e = TypeError
        ∧ phone_mistyped (body_prop req "phone"))
       ∨ (pre = [] ∧ getSchema ctx = Throw e)
       ∨ (pre = []
          ∧ ∃ sch, getSchema ctx = Ok sch
                   ∧ new_ItemsService ctx "contact_submissions" sch
                     = Throw e)
       ∨ (∃ d sch items,
            pre = [CreateOne d]
            ∧ getSchema ctx = Ok sch
            ∧ new_ItemsService ctx "contact_submissions" sch = Ok items
            ∧ createOne items d = Throw e)
       ∨ (∃ d sch items e0,
            e = TypeError
            ∧ read_message e0 = Throw TypeError
            ∧ getSchema ctx = Ok sch
            ∧ new_ItemsService ctx "contact_submissions" sch = Ok items
            ∧ createOne items d = Ok tt
            ∧ ((pre = [CreateOne d] ∧ new_MailService ctx sch = Throw e0)
               ∨ (pre = [CreateOne d; Send (notification ctx d)]
                  ∧ ∃ ms, new_MailService ctx sch = Ok ms
                          ∧ send ms (notification ctx d) = Throw e0)))).
Proof.
  intros Hrun Hst.
  handler_cases ctx now req w v Hv H; rewrite H in Hrun |- *;
    cbn [fst] in Hrun; try discriminate Hrun;
    injection Hrun as <-; cbn [status respond] in Hst;
    try discriminate Hst; cbn [snd extend trace].
  - exists TypeError, [CreateOne d; Send (notification ctx d)].
    split; [done |]. do 4 right. exists d, sch, items, e.
    repeat (split; [done |]). right. split; [done |]. by exists ms.
  - exists TypeError, [CreateOne d]. split; [done |]. do 4 right.
    exists d, sch, items, e. repeat (split; [done |]). by left.
  - exists e, [CreateOne d]. split; [done |].
    do 3 right. left. by exists d, sch, items.
  - exists e, []. split; [done |]. right. right. left.
    split; [done |]. by exists sch.
  - exists e, []. split; [done |]. right. left. done.
  - exists e, []. split; [done |]. left.
    destruct (sanitize_throws _ _ _ Hv Hvalid Hsan) as [-> Hph]. done.
Qed.

Lemma internal_error_causes_witness :
  ∃ e pre,
    trace (handler working 0
             (request_with
                (object [("name", Str (js "Marco Rossi"));
                         ("email", Str (js "marco@example.com"));
                         ("phone", Num (SpecFloat.S754_finite false 7 0));
                         ("subject", Str (js "info"));
                         ("message", Str (js "Test message content here."))]))
             world0).2
    = trace world0 ++ pre ++ [ConsoleError "Contact form error:" e].
Proof.
  edestruct (internal_error_causes working 0
               (request_with
                  (object [("name", Str (js "Marco Rossi"));
                           ("email", Str (js "marco@example.com"));
                           ("phone", Num (SpecFloat.S754_finite false 7 0));
                           ("subject", Str (js "info"));
                           ("message",
                            Str (js "Test message content here."))]))
               world0)
    as (e & pre & Htr & _).
  - vm_compute. reflexivity.
  - reflexivity.
  - exists e, pre. exact Htr.
Defined.

(** A submission that passes the limiter, the trap and the validator
    with a phone that is truthy and not a string (a JSON number, say)
    is answered 500: nothing is stored and the [TypeError] is logged. *)
Theorem mistyped_phone_is_internal_error ctx now req w st v :
  isRateLimited (clientIp req) now (rateLimitStore w) = (false, st) →
  ToBoolean (body_prop req "honeypot") = false →
  validateFormData (body_or_empty req) = Ok v →
  valid v = true →
  phone_mistyped (body_prop req "phone") →
  handler ctx now req w
  = (Ok (respond 500 "Internal server error."),
     extend w st [ConsoleError "Contact form error:" TypeError]).
Proof.
  intros Hlim' Hhp' Hv' Hvalid' [Htruthy Hnostr].
  destruct (valid_inv _ _ Hv' Hvalid')
    as (props & Hb & Hn & He & Hp & Hs & Hm).
  rewrite (body_prop_Obj _ _ _ Hb) in Htruthy, Hnostr.
  pose proof (sanitize_accepted props (clientIp req) Hn He Hp Hs Hm) as Hsan'.
  assert (Hthrow : sanitize (body_or_empty req) (clientIp req)
                   = Throw TypeError).
  { rewrite Hb.
    destruct (field props "phone") as [| |b|x|p|xs|ps]; cbn [ToBoolean] in *;
      try discriminate Htruthy; try done.
    - by rewrite Htruthy in Hsan'.
    - by destruct x.
    - by destruct (Hnostr p). }
  destruct (handler_paths ctx now req w) as (v0 & Hv0 & H).
  rewrite Hv' in Hv0. injection Hv0 as <-.
  rewrite Hlim', Hhp', Hvalid', Hthrow in H. exact H.
Qed.

Lemma mistyped_phone_is_internal_error_witness :
  (handler working 0
     (request_with
        (object [("name", Str (js "Marco Rossi"));
                 ("email", Str (js "marco@example.com"));
                 ("phone", Arr [Str (js "+39 06 1234567")]);
                 ("subject", Str (js "info"));
                 ("message", Str (js "Test message content here."))]))
     world0).1
  = Ok (respond 500 "Internal server error.").
Proof.
  erewrite (mistyped_phone_is_internal_error working 0
              (request_with
                 (object [("name", Str (js "Marco Rossi"));
                          ("email", Str (js "marco@example.com"));
                          ("phone", Arr [Str (js "+39 06 1234567")]);
                          ("subject", Str (js "info"));
                          ("message",
                           Str (js "Test message content here."))]))
              world0).
  - reflexivity.
  - reflexivity.
  - reflexivity.
  - reflexivity.
  - reflexivity.
  - split; [reflexivity | intros s Hs; discriminate Hs].
Defined.

(** The errors of the validator: at least one when the result is not
    valid, each under the key of one of the five fields, with the
    reason ["Invalid <field>"]. *)
Lemma validateFormData_errors data v :
  validateFormData data = Ok v →
  (valid v = false → errors v ≠ ∅)
  ∧ dom (errors v) ⊆ list_to_set validated_keys
  ∧ map_Forall (λ k reason, reason = "Invalid " +:+ k) (errors v).
Proof.
  intros Hv.
  assert (Hobj : ∀ props, validateFormData (Obj props) = Ok v →
            (valid v = false → errors v ≠ ∅)
            ∧ dom (errors v) ⊆ list_to_set validated_keys
            ∧ map_Forall (λ k reason, reason = "Invalid " +:+ k) (errors v)).
  { clear Hv. intros props Hv.
    destruct (validateFormData_Obj props) as (bp & _ & Heq).
    rewrite Hv in Heq. injection Heq as ->. cbn [valid errors].
    split.
    - intros Hf Hempty. apply Object_keys_empty in Hempty. congruence.
    - destruct (Contract.name_ok _), (Contract.email_ok _), bp,
        (Contract.subject_ok _), (Contract.message_ok _);
        (split; apply (bool_decide_unpack _); vm_compute; exact I). }
  destruct data as [| |b|x|s|xs|props].
  1, 2: by vm_compute in Hv.
  1, 2, 3, 4:
    rewrite validateFormData_primitive in Hv by done; by apply (Hobj ∅).
  by apply (Hobj props).
Qed.

(** A 400 carries the errors of the validator: at least one, each
    under the key of one of the five fields. *)
Theorem validation_failure_response ctx now req w r :
  (handler ctx now req w).1 = Ok r →
  status r = 400 →
  ∃ errs,
    r = {| status := 400; message := "Validation failed";
           response_errors := Some errs |}
    ∧ validateFormData (body_or_empty req)
      = Ok {| valid := false; errors := errs |}
    ∧ errs ≠ ∅
    ∧ dom errs ⊆ list_to_set validated_keys
    ∧ map_Forall (λ k reason, reason = "Invalid " +:+ k) errs.
Proof.
  intros Hrun Hst.
  handler_cases ctx now req w v Hv H; rewrite H in Hrun;
    cbn [fst] in Hrun; try discriminate Hrun;
    injection Hrun as <-; cbn [status respond] in Hst;
    try discriminate Hst.
  destruct (validateFormData_errors _ _ Hv) as (Hne & Hdom & Hall).
  exists (errors v). split; [done |]. split.
  - rewrite Hv. destruct v as [vl errs]. cbn in Hvalid. by subst vl.
  - split; [by apply Hne | done].
Qed.

Lemma validation_failure_response_witness :
  ∃ errs,
    (handler working 0
       (request_with (object [("name", Str (js "<script>"))])) world0).1
    = Ok {| status := 400; message := "Validation failed";
            response_errors := Some errs |}
    ∧ errs ≠ ∅.
Proof.
  edestruct (validation_failure_response working 0
               (request_with (object [("name", Str (js "<script>"))]))
               world0)
    as (errs & Hr & _ & Hne & _).
  - vm_compute. reflexivity.
  - reflexivity.
  - exists errs. split; [| exact Hne]. rewrite <- Hr. by vm_compute.
Defined.

(** The client identity is never the empty string. *)
Theorem clientIp_not_empty req : clientIp req ≠ [].
Proof.
  unfold clientIp.
  destruct (match x_forwarded_for req with
            | Some h => split 44 h !! 0%nat
            | None => None
            end) as [[|c f]|];
    destruct (ip req) as [[|c' a]|]; done.
Qed.

Lemma World_eta w :
  {| rateLimitStore := rateLimitStore w; trace := trace w |} = w.
Proof. by destruct w. Qed.

(** Requests count against the quota whatever becomes of them: after
    three requests of one client inside a window, be they accepted,
    invalid, trapped or failed, the fourth inside that window is
    answered 429 and changes nothing. *)
Theorem fourth_request_is_rejected
    (c1 c2 c3 c4 : Context) (t1 t2 t3 t4 : Z) (r1 r2 r3 r4 : Request)
    (w0 : World) (ip : jsstring) :
  rateLimitStore w0 !! ip = None →
  clientIp r1 = ip → clientIp r2 = ip → clientIp r3 = ip →
  clientIp r4 = ip →
  t2 - t1 ≤ RATE_LIMIT_WINDOW_MS →
  t3 - t1 ≤ RATE_LIMIT_WINDOW_MS →
  t4 - t1 ≤ RATE_LIMIT_WINDOW_MS →
  let w1 := (handler c1 t1 r1 w0).2 in
  let w2 := (handler c2 t2 r2 w1).2 in
  let w3 := (handler c3 t3 r3 w2).2 in
  handler c4 t4 r4 w3
  = (Ok (respond 429 "Too many requests. Try again later."), w3).
Proof.
  intros Hnone H1 H2 H3 H4 Ht2 Ht3 Ht4 w1 w2 w3.
  assert (Hstore : ∀ ctx now req w,
            rateLimitStore (handler ctx now req w).2
            = (isRateLimited (clientIp req) now (rateLimitStore w)).2).
  { intros ctx now req w. handler_cases ctx now req w v Hv H; by rewrite H. }
  assert (Hw1 : rateLimitStore w1 !! ip
                = Some {| count := 1; firstRequest := t1 |}).
  { unfold w1. rewrite Hstore, H1, (isRateLimited_fresh _ _ _ Hnone).
    apply lookup_insert_eq. }
  assert (Hw2 : rateLimitStore w2 !! ip
                = Some {| count := 2; firstRequest := t1 |}).
  { unfold w2. rewrite Hstore, H2.
    rewrite (isRateLimited_bump _ _ _ _ Hw1) by (cbn; done).
    apply lookup_insert_eq. }
  assert (Hw3 : rateLimitStore w3 !! ip
                = Some {| count := 3; firstRequest := t1 |}).
  { unfold w3. rewrite Hstore, H3.
    rewrite (isRateLimited_bump _ _ _ _ Hw2) by (cbn; done).
    apply lookup_insert_eq. }
  rewrite (handler_rate_limited c4 t4 r4 w3 (rateLimitStore w3)).
  - by rewrite World_eta.
  - rewrite H4. apply (isRateLimited_full _ _ _ _ Hw3); cbn; done.
Qed.

Lemma fourth_request_is_rejected_witness :
  let bad := request_with (object [("name", Str (js "<script>"))]) in
  let trapped := request_with (object [("honeypot", Bool true)]) in
  let good := request_with (object submission) in
  let w1 := (handler working 0 bad world0).2 in
  let w2 := (handler working 10 trapped w1).2 in
  let w3 := (handler mail_down 20 good w2).2 in
  handler working 900000 good w3
  = (Ok (respond 429 "Too many requests. Try again later."), w3).
Proof.
  apply (fourth_request_is_rejected working working mail_down working
           0 10 20 900000 _ _ _ _ world0 (js "203.0.113.7")).
  - reflexivity.
  - reflexivity.
  - reflexivity.
  - reflexivity.
  - reflexivity.
  - by vm_compute.
  - by vm_compute.
  - by vm_compute.
Defined.

End HandlerGuarantees.

(** * More on the validator and the sanitizer *)

Section WhitelistFacts.

Implicit Types (props : gmap jsstring value) (s : jsstring) (c : N).

(** The validator reads the five fields and nothing else: two objects
    that agree on them get the same result, whatever else they hold. *)
Theorem validateFormData_reads_five_fields props props' :
  Forall (λ k, props !! js k = props' !! js k) validated_keys →
  validateFormData (Obj props) = validateFormData (Obj props').
Proof.
  intros H. unfold validated_keys in H.
  repeat (apply Forall_cons in H as [? H]).
  unfold validateFormData.
  rewrite !name_fails_Obj, !email_fails_Obj, !phone_fails_Obj,
    !subject_fails_Obj, !message_fails_Obj.
  unfold field. by repeat match goal with Heq : _ !! _ = _ |- _ =>
                            rewrite Heq; clear Heq end.
Qed.

Lemma validateFormData_reads_five_fields_witness :
  validateFormData
    (object (("newsletter", Bool true) :: ("honeypot", Null) :: submission))
  = validateFormData (object submission).
Proof.
  apply validateFormData_reads_five_fields.
  repeat constructor.
Defined.

(** The parts of a string the email pattern accepts. *)
Lemma email_parts s :
  test ALLOWED_PATTERNS.email s = true →
  ∃ s1 s3 s5,
    s = s1 ++ [64%N] ++ s3 ++ [46%N] ++ s5
    ∧ (1 ≤ length s1)%nat ∧ (1 ≤ length s3)%nat ∧ (2 ≤ length s5)%nat
    ∧ ∀ c, c ∈ s1 ++ s3 ++ s5 → (37 ≤ c ≤ 57 ∨ 65 ≤ c ≤ 122)%N.
Proof.
  rewrite test_lang. unfold ALLOWED_PATTERNS.email.
  intros (s1 & r1 & -> & (Hl1 & _ & H1)
          & (s2 & r2 & -> & H2
             & (s3 & r3 & -> & (Hl3 & _ & H3)
                & (s4 & s5 & -> & H4 & (Hl5 & _ & H5))))).
  apply lang_Chr in H2 as ->. apply lang_Chr in H4 as ->.
  exists s1, s3, s5. repeat (split; [done |]).
  assert (Hal : ∀ c, alpha c = true → (65 ≤ c ≤ 122)%N).
  { intros c. unfold alpha, lower, upper, range.
    rewrite orb_true_iff, !andb_true_iff, !N.leb_le. lia. }
  assert (Hdi : ∀ c, digit c = true → (48 ≤ c ≤ 57)%N).
  { intros c. unfold digit, range. rewrite andb_true_iff, !N.leb_le. lia. }
  intros c. rewrite !elem_of_app.
  rewrite Forall_forall in H1, H3, H5.
  intros [Hc | [Hc | Hc]].
  - specialize (H1 _ Hc). unfold ALLOWED_PATTERNS.local_cls in H1.
    rewrite !orb_true_iff, !N.eqb_eq in H1.
    destruct H1 as [[[[[[Ha|Ha]|Ha]|Ha]|Ha]|Ha]|Ha];
      [apply Hal in Ha | apply Hdi in Ha | ..]; lia.
  - specialize (H3 _ Hc). unfold ALLOWED_PATTERNS.domain_cls in H3.
    rewrite !orb_true_iff, !N.eqb_eq in H3.
    destruct H3 as [[[Ha|Ha]|Ha]|Ha];
      [apply Hal in Ha | apply Hdi in Ha | ..]; lia.
  - specialize (H5 _ Hc). apply Hal in H5. lia.
Qed.

Lemma email_chars s :
  test ALLOWED_PATTERNS.email s = true →
  ∀ c, c ∈ s → (37 ≤ c ≤ 57 ∨ 64 ≤ c ≤ 122)%N.
Proof.
  intros H. apply email_parts in H as (s1 & s3 & s5 & -> & _ & _ & _ & Hc).
  intros c. rewrite !elem_of_app, !list_elem_of_singleton.
  intros [H | [-> | [H | [-> | H]]]]; try lia;
    (assert (Hin : c ∈ s1 ++ s3 ++ s5)
       by (rewrite !elem_of_app; auto); apply Hc in Hin; lia).
Qed.

(** A string the email pattern accepts has exactly one [@], no white
    space, neither [<] nor [>], and at least six characters. *)
Theorem email_shape s :
  test ALLOWED_PATTERNS.email s = true →
  length (filter (λ c, c = 64%N) s) = 1%nat
  ∧ Forall (λ c, is_space c = false) s
  ∧ (LT ∉ s) ∧ (GT ∉ s)
  ∧ (6 ≤ length s)%nat.
Proof.
  intros Hs. pose proof (email_chars s Hs) as Hchar.
  apply email_parts in Hs as (s1 & s3 & s5 & -> & Hl1 & Hl3 & Hl5 & Hc).
  assert (Hno : ∀ t, (∀ c, c ∈ t → c ∈ s1 ++ s3 ++ s5) →
            filter (λ c, c = 64%N) t = []).
  { intros t Ht. induction t as [|c t IH]; [done |].
    rewrite filter_cons_False.
    - apply IH. intros c' Hc'. apply Ht. by right.
    - specialize (Hc c (Ht c (list_elem_of_here _ _))). lia. }
  repeat split.
  - rewrite !filter_app, !length_app.
    rewrite (Hno s1), (Hno s3), (Hno s5); [done | ..];
      intros c; rewrite !elem_of_app; auto.
  - apply Forall_forall. intros c Hc'. apply Hchar in Hc'.
    unfold is_space. rewrite !orb_false_iff, !andb_false_iff, !N.eqb_neq,
      !N.leb_gt. lia.
  - intros Hc'. apply Hchar in Hc'. unfold LT in Hc'. lia.
  - intros Hc'. apply Hchar in Hc'. unfold GT in Hc'. lia.
  - rewrite !length_app. simpl. lia.
Qed.

Lemma email_shape_witness :
  length (filter (λ c, c = 64%N) (js "marco@example.com")) = 1%nat.
Proof.
  apply (email_shape (js "marco@example.com")). reflexivity.
Defined.

(** What the name, phone or email pattern accepts has no [<] in it, so
    the sanitizer returns it as it is: of the fields of an accepted
    submission only the message can be changed by [stripHTML]. *)
Theorem stripHTML_keeps_whitelisted s :
  test ALLOWED_PATTERNS.name s = true
  ∨ test ALLOWED_PATTERNS.phone s = true
  ∨ test ALLOWED_PATTERNS.email s = true →
  stripHTML (Str s) = s.
Proof.
  unfold stripHTML. cbn. intros [H | [H | H]].
  - by apply test_name_strip.
  - by apply test_phone_strip.
  - apply strip_tags_no_LT. intros Hc. apply (email_chars _ H) in Hc.
    unfold LT in Hc. lia.
Qed.

Lemma stripHTML_keeps_whitelisted_witness :
  stripHTML (Str (js "Marco Rossi")) = js "Marco Rossi".
Proof.
  apply stripHTML_keeps_whitelisted. left. reflexivity.
Defined.

Lemma Removed_sublist s out : Removed s out → out `sublist_of` s.
Proof.
  induction 1 as [|c s out _ IH|t s out _ _ IH].
  - constructor.
  - by constructor.
  - by apply sublist_inserts_l.
Qed.

(** The sanitizer only takes characters out: its result is the input
    with some characters dropped, in the same order, and so is never
    longer than the input. *)
Theorem stripHTML_only_removes s :
  stripHTML (Str s) `sublist_of` s
  ∧ (length (stripHTML (Str s)) ≤ length s)%nat.
Proof.
  unfold stripHTML. cbn.
  pose proof (proj1 (strip_tags_Removed s)) as H. split.
  - by apply Removed_sublist.
  - by apply Removed_length.
Qed.

End WhitelistFacts.

(** * The limiter over time *)

Section LimiterHistory.

Implicit Types (st : Store) (ip : jsstring) (now t : Z) (e : Entry).
Implicit Types (cs : list (jsstring * Z)) (h : list (jsstring * Z * bool)).

Lemma isRateLimited_other ip ip' now st :
  ip ≠ ip' → (isRateLimited ip now st).2 !! ip' = st !! ip'.
Proof.
  intros Hne. unfold isRateLimited.
  destruct (st !! ip) as [e|]; cbn [snd];
    [| by rewrite lookup_insert_ne].
  destruct (_ >? _); cbn [snd]; [by rewrite lookup_insert_ne |].
  destruct (_ >=? _); cbn [snd]; [done | by rewrite lookup_insert_ne].
Qed.

(** The answer to a call and the entry it leaves depend on the entry
    of the caller only. *)
Lemma isRateLimited_own ip now st1 st2 :
  st1 !! ip = st2 !! ip →
  (isRateLimited ip now st1).1 = (isRateLimited ip now st2).1
  ∧ (isRateLimited ip now st1).2 !! ip = (isRateLimited ip now st2).2 !! ip.
Proof.
  intros H. unfold isRateLimited. rewrite <- H.
  destruct (st1 !! ip) as [e|] eqn:He; cbn [fst snd];
    [| by rewrite !lookup_insert_eq].
  destruct (_ >? _); cbn [fst snd]; [by rewrite !lookup_insert_eq |].
  destruct (_ >=? _); cbn [fst snd];
    [by rewrite He, <- H | by rewrite !lookup_insert_eq].
Qed.

Lemma history_cons ip now cs st :
  history ((ip, now) :: cs) st
  = (ip, now, (isRateLimited ip now st).1)
    :: history cs (isRateLimited ip now st).2.
Proof.
  unfold history. cbn [calls].
  destruct (isRateLimited ip now st) as [r st']. cbn [fst snd].
  destruct (calls cs st') as [rs st'']. reflexivity.
Qed.

Lemma calls_cons_store ip now cs st :
  (calls ((ip, now) :: cs) st).2 = (calls cs (isRateLimited ip now st).2).2.
Proof.
  cbn [calls]. destruct (isRateLimited ip now st) as [r st']. cbn [fst snd].
  destruct (calls cs st') as [rs st'']. reflexivity.
Qed.

(** The answers one client gets, and the entry it ends with, are those
    it would get if no other client had called. *)
Theorem clients_are_independent ip cs st :
  filter (λ c, c.1.1 = ip) (history cs st) = history (calls_of ip cs) st
  ∧ (calls cs st).2 !! ip = (calls (calls_of ip cs) st).2 !! ip.
Proof.
  assert (Hgen : ∀ cs st1 st2, st1 !! ip = st2 !! ip →
            filter (λ c, c.1.1 = ip) (history cs st1)
            = history (calls_of ip cs) st2
            ∧ (calls cs st1).2 !! ip = (calls (calls_of ip cs) st2).2 !! ip).
  { clear cs st. induction cs as [|[ip0 t] cs IH]; intros st1 st2 Hst.
    - done.
    - rewrite history_cons, calls_cons_store. unfold calls_of.
      destruct (decide (ip0 = ip)) as [->|Hne].
      + rewrite filter_cons_True by done.
        rewrite filter_cons_True by done.
        rewrite history_cons, calls_cons_store.
        destruct (isRateLimited_own ip t st1 st2 Hst) as [Hr Hs].
        rewrite Hr. destruct (IH _ _ Hs) as [IH1 IH2].
        unfold calls_of in IH1, IH2. by rewrite IH1, IH2.
      + rewrite filter_cons_False by (simpl; congruence).
        rewrite filter_cons_False by (simpl; congruence).
        apply IH. by rewrite isRateLimited_other. }
  by apply Hgen.
Qed.

(** No entry is ever removed: after a run the store has an entry for
    each identity it had one for and for each identity that called,
    and for no other. *)
Theorem entries_are_never_removed cs st :
  dom (calls cs st).2 = dom st ∪ list_to_set cs.*1.
Proof.
  revert st. induction cs as [|[ip t] cs IH]; intros st.
  - cbn. set_solver.
  - rewrite calls_cons_store, IH. cbn [fmap list_fmap fst list_to_set].
    assert (Hdom : dom (isRateLimited ip t st).2 = dom st ∪ {[ip]}).
    { unfold isRateLimited. destruct (st !! ip) as [e|] eqn:He; cbn [snd].
      - assert (ip ∈ dom st) by (apply elem_of_dom; eauto).
        destruct (_ >? _); cbn [snd]; [rewrite dom_insert_L; set_solver |].
        destruct (_ >=? _); cbn [snd];
          [set_solver | rewrite dom_insert_L; set_solver].
      - rewrite dom_insert_L. set_solver. }
    rewrite Hdom. set_solver.
Qed.

Lemma admitted_since_snoc ip t h c :
  admitted_since ip t (h ++ [c])
  = (admitted_since ip t h
     + if decide (c.1.1 = ip ∧ c.2 = false ∧ (t ≤ c.1.2)%Z) then 1 else 0)%nat.
Proof.
  unfold admitted_since. rewrite filter_app, length_app.
  destruct (decide _) as [Hc|Hc].
  - by rewrite filter_cons_True.
  - by rewrite filter_cons_False.
Qed.

Lemma admitted_since_zero ip t h :
  (∀ c, c ∈ h → c.1.1 = ip → c.2 = false → c.1.2 < t) →
  admitted_since ip t h = 0%nat.
Proof.
  unfold admitted_since. induction h as [|c h IH]; intros H; [done |].
  rewrite filter_cons_False.
  - apply IH. intros c' Hc'. apply H. by right.
  - intros (H1 & H2 & H3). specialize (H c (list_elem_of_here _ _) H1 H2). lia.
Qed.

Lemma admitted_since_mono ip t t' h :
  t ≤ t' → (admitted_since ip t' h ≤ admitted_since ip t h)%nat.
Proof.
  intros Ht. unfold admitted_since. induction h as [|c h IH]; [done |].
  rewrite !filter_cons.
  destruct (decide (c.1.1 = ip ∧ c.2 = false ∧ t' ≤ c.1.2)) as [H'|H'];
    destruct (decide (c.1.1 = ip ∧ c.2 = false ∧ t ≤ c.1.2)) as [H|H];
    simpl; try lia.
  exfalso. apply H. destruct H' as (? & ? & ?). repeat split; [done | done | lia].
Qed.

Lemma tracks_empty : tracks [] rateLimitStore0.
Proof.
  intros ip. unfold rateLimitStore0. rewrite lookup_empty.
  intros c Hc. by apply elem_of_nil in Hc.
Qed.

(** One call keeps the store on track, when it is not earlier than
    the calls before it. *)
Lemma tracks_step ip now h st :
  tracks h st →
  (∀ c, c ∈ h → c.1.2 ≤ now) →
  tracks (h ++ [(ip, now, (isRateLimited ip now st).1)])
    (isRateLimited ip now st).2.
Proof.
  intros Htr Hle ip'. destruct (decide (ip = ip')) as [<-|Hne].
  - specialize (Htr ip). unfold isRateLimited.
    destruct (st !! ip) as [e|] eqn:He; cbn [fst snd].
    + destruct Htr as (Hcount & Hend & c0 & Hc0 & Hc0t).
      destruct (Z.gtb_spec (now - firstRequest e) RATE_LIMIT_WINDOW_MS)
        as [Hgt|Hle']; cbn [fst snd].
      * rewrite lookup_insert_eq. cbn [count firstRequest].
        rewrite admitted_since_snoc, decide_True by (cbn; repeat split; lia).
        rewrite admitted_since_zero.
        -- split; [done |]. split.
           ++ intros c Hc _ _. apply elem_of_app in Hc as [Hc | Hc].
              ** specialize (Hle _ Hc). unfold RATE_LIMIT_WINDOW_MS. lia.
              ** apply list_elem_of_singleton in Hc as ->. cbn.
                 unfold RATE_LIMIT_WINDOW_MS. lia.
           ++ exists (ip, now, false). split; [| done].
              apply elem_of_app. right. left.
        -- intros c Hc H1 H2. specialize (Hend _ Hc H1 H2). lia.
      * destruct (Z.geb_spec (count e) RATE_LIMIT_MAX) as [Hfull|Hroom];
          cbn [fst snd].
        -- rewrite He. rewrite admitted_since_snoc.
           rewrite decide_False by (cbn; intros (_ & ? & _); done).
           split; [by rewrite Nat.add_0_r |]. split.
           ++ intros c Hc H1 H2. apply elem_of_app in Hc as [Hc | Hc].
              ** by apply Hend.
              ** apply list_elem_of_singleton in Hc as ->. done.
           ++ exists c0. split; [| done]. apply elem_of_app. by left.
        -- rewrite lookup_insert_eq. cbn [count firstRequest].
           assert (firstRequest e ≤ now)
             by (rewrite <- Hc0t; by apply Hle).
           rewrite admitted_since_snoc, decide_True
             by (cbn; repeat split; lia).
           split; [lia |]. split.
           ++ intros c Hc H1 H2. apply elem_of_app in Hc as [Hc | Hc].
              ** by apply Hend.
              ** apply list_elem_of_singleton in Hc as ->. cbn. lia.
           ++ exists c0. split; [| done]. apply elem_of_app. by left.
    + rewrite lookup_insert_eq. cbn [count firstRequest].
      rewrite admitted_since_snoc, decide_True by (cbn; repeat split; lia).
      rewrite admitted_since_zero.
      * split; [done |]. split.
        -- intros c Hc H1 _. apply elem_of_app in Hc as [Hc | Hc].
           ++ by destruct (Htr _ Hc).
           ++ apply list_elem_of_singleton in Hc as ->. cbn.
              unfold RATE_LIMIT_WINDOW_MS. lia.
        -- exists (ip, now, false). split; [| done].
           apply elem_of_app. right. left.
      * intros c Hc H1 _. by destruct (Htr _ Hc).
  - rewrite isRateLimited_other by done. specialize (Htr ip').
    destruct (st !! ip') as [e|].
    + destruct Htr as (Hcount & Hend & c0 & Hc0 & Hc0t).
      rewrite admitted_since_snoc.
      rewrite decide_False by (cbn; intros (? & _); done).
      split; [by rewrite Nat.add_0_r |]. split.
      * intros c Hc H1 H2. apply elem_of_app in Hc as [Hc | Hc].
        -- by apply Hend.
        -- apply list_elem_of_singleton in Hc as ->. done.
      * exists c0. split; [| done]. apply elem_of_app. by left.
    + intros c Hc. apply elem_of_app in Hc as [Hc | Hc]; [by apply Htr |].
      apply list_elem_of_singleton in Hc as ->. done.
Qed.

(** A run in which time does not go back keeps the store on track. *)
Lemma tracks_run cs : ∀ lo h st,
  tracks h st →
  (∀ c, c ∈ h → c.1.2 ≤ lo) →
  chronological_from lo cs = true →
  tracks (h ++ history cs st) (calls cs st).2.
Proof.
  induction cs as [|[ip t] cs IH]; intros lo h st Htr Hle Hchr.
  - cbn. by rewrite app_nil_r.
  - cbn in Hchr. apply andb_true_iff in Hchr as [Hlo Hchr].
    apply Z.leb_le in Hlo.
    rewrite history_cons, calls_cons_store.
    rewrite (cons_middle _ h), app_assoc.
    apply (IH t); [| | done].
    + apply tracks_step; [done |]. intros c Hc. specialize (Hle _ Hc). lia.
    + intros c Hc. apply elem_of_app in Hc as [Hc | Hc].
      * specialize (Hle _ Hc). lia.
      * apply list_elem_of_singleton in Hc as ->. done.
Qed.

Lemma tracks_from_empty cs :
  chronological cs = true →
  tracks (history cs rateLimitStore0) (calls cs rateLimitStore0).2.
Proof.
  intros Hchr. destruct cs as [|[ip t] cs]; [apply tracks_empty |].
  apply (tracks_run ((ip, t) :: cs) t [] rateLimitStore0).
  - apply tracks_empty.
  - intros c Hc. by apply elem_of_nil in Hc.
  - cbn. rewrite Z.leb_refl. exact Hchr.
Qed.

(** As long as time does not go back, the counter of an identity is
    the number of its calls that were admitted since its window began,
    and there are at most three of them. *)
Theorem counter_is_admitted_calls cs ip e :
  chronological cs = true →
  (calls cs rateLimitStore0).2 !! ip = Some e →
  count e
  = Z.of_nat (admitted_since ip (firstRequest e) (history cs rateLimitStore0))
  ∧ (admitted_since ip (firstRequest e) (history cs rateLimitStore0) ≤ 3)%nat.
Proof.
  intros Hchr He.
  pose proof (tracks_from_empty cs Hchr ip) as Htr. rewrite He in Htr.
  destruct Htr as (Hcount & _). split; [done |].
  pose proof (calls_store_ok cs _ store_ok_empty ip e He) as Hok.
  unfold RATE_LIMIT_MAX in Hok. lia.
Qed.

Lemma counter_is_admitted_calls_witness :
  ∃ e,
    (calls [(js "a", 0); (js "b", 5); (js "a", 10); (js "a", 900001)]
       rateLimitStore0).2 !! js "a" = Some e
    ∧ count e
      = Z.of_nat
          (admitted_since (js "a") (firstRequest e)
             (history [(js "a", 0); (js "b", 5); (js "a", 10);
                       (js "a", 900001)] rateLimitStore0)).
Proof.
  eexists. split; [by vm_compute |].
  eapply (counter_is_admitted_calls
            [(js "a", 0); (js "b", 5); (js "a", 10); (js "a", 900001)]
            (js "a")).
  - reflexivity.
  - by vm_compute.
Defined.

Lemma isRateLimited_true_inv ip now st :
  (isRateLimited ip now st).1 = true →
  ∃ e, st !! ip = Some e
       ∧ now - firstRequest e ≤ RATE_LIMIT_WINDOW_MS
       ∧ RATE_LIMIT_MAX ≤ count e.
Proof.
  unfold isRateLimited. destruct (st !! ip) as [e|]; [| discriminate].
  destruct (Z.gtb_spec (now - firstRequest e) RATE_LIMIT_WINDOW_MS);
    [discriminate |].
  destruct (Z.geb_spec (count e) RATE_LIMIT_MAX); [| discriminate].
  intros _. exists e. repeat split; [lia | done].
Qed.

(** A rejection is earned: as long as time has not gone back, a call
    is rejected only if three calls of the same identity were admitted
    in the window length before it. *)
Theorem rejection_is_earned cs ip now :
  chronological cs = true →
  (isRateLimited ip now (calls cs rateLimitStore0).2).1 = true →
  (3 ≤ admitted_since ip (now - RATE_LIMIT_WINDOW_MS)
         (history cs rateLimitStore0))%nat.
Proof.
  intros Hchr Hrej.
  apply isRateLimited_true_inv in Hrej as (e & He & Hwin & Hfull).
  pose proof (tracks_from_empty cs Hchr ip) as Htr. rewrite He in Htr.
  destruct Htr as (Hcount & _).
  pose proof (admitted_since_mono ip (now - RATE_LIMIT_WINDOW_MS)
                (firstRequest e) (history cs rateLimitStore0)) as Hmono.
  unfold RATE_LIMIT_MAX in Hfull. lia.
Qed.

Lemma rejection_is_earned_witness :
  (3 ≤ admitted_since (js "a") (20 - RATE_LIMIT_WINDOW_MS)
         (history [(js "a", 0%Z); (js "a", 5%Z); (js "b", 7%Z);
                   (js "a", 10%Z)]
            rateLimitStore0))%nat.
Proof.
  apply (rejection_is_earned
           [(js "a", 0); (js "a", 5); (js "b", 7); (js "a", 10)]
           (js "a") 20).
  - reflexivity.
  - by vm_compute.
Defined.

(** Rejected attempts do not extend the block: an identity at its
    maximum is rejected on every attempt inside the window, the store
    stays as it is, and the first attempt more than a window length
    after the start of the window is admitted. *)
Theorem retries_do_not_extend_the_block st ip e (ts : list Z) now :
  st !! ip = Some e →
  RATE_LIMIT_MAX ≤ count e →
  Forall (λ t, t - firstRequest e ≤ RATE_LIMIT_WINDOW_MS) ts →
  now - firstRequest e > RATE_LIMIT_WINDOW_MS →
  calls (map (λ t, (ip, t)) ts ++ [(ip, now)]) st
  = (replicate (length ts) true ++ [false],
     <[ip := {| count := 1; firstRequest := now |}]> st).
Proof.
  intros He Hfull Hts Hnow. induction Hts as [|t ts Ht _ IH].
  - cbn [map app calls length replicate].
    by rewrite (isRateLimited_expired _ _ _ _ He Hnow).
  - cbn [map app calls length replicate].
    rewrite (isRateLimited_full _ _ _ _ He Ht Hfull).
    by rewrite IH.
Qed.

Lemma retries_do_not_extend_the_block_witness :
  calls (map (λ t, (js "a", t)) [100; 200; 900000] ++ [(js "a", 900001)])
    {[ js "a" := {| count := 3; firstRequest := 0 |} ]}
  = (replicate 3 true ++ [false],
     <[js "a" := {| count := 1; firstRequest := 900001 |}]>
       {[ js "a" := {| count := 3; firstRequest := 0 |} ]}).
Proof.
  apply (retries_do_not_extend_the_block
           {[ js "a" := {| count := 3; firstRequest := 0 |} ]} (js "a")
           {| count := 3; firstRequest := 0 |} [100; 200; 900000] 900001).
  - reflexivity.
  - reflexivity.
  - repeat constructor; by vm_compute.
  - reflexivity.
Defined.

End LimiterHistory.
